(** * kstack: compose-to-Kubernetes generators, validator and reconciler

    A shallow embedding of the Python sources under [kstack/]:
    - [generators/base_generator.py], [service_generator.py],
      [deployment_generator.py], [volume_generator.py],
      [ingress_generator.py], [kube_generator.py];
    - [parsers/validators.py] (the referential checks);
    - [core/resource_manager.py] (apply and delete).

    Python dictionaries are association lists in insertion order, a
    missing key is [None], exceptions are the [Raise] branch of [result],
    and in-place mutation of the compose model is explicit state passing. *)

From Stdlib Require Import String Ascii List ZArith Bool Lia Arith.
From Stdlib Require Import Permutation DecimalString DecimalNat Decimal.
From Stdlib Require DecimalFacts.
Import ListNotations.
Open Scope string_scope.
Open Scope list_scope.

Set Implicit Arguments.

(** ** Python values and exceptions *)

#[local] Set Warnings "-register-all".

(** A YAML/Python value as the loaders produce it. *)
Inductive pyval : Type :=
| VNone
| VBool (b : bool)
| VInt (z : Z)
| VStr (s : string)
| VList (l : list pyval)
| VDict (d : list (string * pyval)).

(** Python truthiness, [bool(v)]. *)
Definition truthy (v : pyval) : bool :=
  match v with
  | VNone => false
  | VBool b => b
  | VInt z => negb (Z.eqb z 0)
  | VStr s => negb (String.eqb s "")
  | VList l => match l with [] => false | _ => true end
  | VDict d => match d with [] => false | _ => true end
  end.

(** The exceptions the modelled code can raise. *)
Inductive exn : Type :=
| IndexError
| KeyError
| TypeError
| AttributeError
| NameError
| ValueError (msg : string)
| ApiException (status : Z) (reason : string)
| Exception (msg : string).

Inductive result (A : Type) : Type :=
| Ok (a : A)
| Raise (e : exn).
Arguments Ok {A} a.
Arguments Raise {A} e.

Definition bind {A B : Type} (r : result A) (k : A -> result B) : result B :=
  match r with
  | Ok a => k a
  | Raise e => Raise e
  end.

Declare Scope py_scope.
Delimit Scope py_scope with py.
Notation "x <- r ;; k" := (bind r (fun x => k))
  (at level 61, r at next level, right associativity) : py_scope.
Open Scope py_scope.

(** ** Dictionaries as association lists *)

Fixpoint get {V : Type} (k : string) (d : list (string * V)) : option V :=
  match d with
  | [] => None
  | (k', v) :: d' => if String.eqb k k' then Some v else get k d'
  end.

(** [d.get(k, default)] *)
Definition get_default {V : Type} (k : string) (dflt : V) (d : list (string * V)) : V :=
  match get k d with
  | Some v => v
  | None => dflt
  end.

Definition keys {V : Type} (d : list (string * V)) : list string := map fst d.

(** [config.get(field)] is truthy for a list-valued field. *)
Definition nonempty {A : Type} (o : option (list A)) : bool :=
  match o with
  | Some (_ :: _) => true
  | _ => false
  end.

(** [config.get(field, [])] *)
Definition or_empty {A : Type} (o : option (list A)) : list A :=
  match o with
  | Some l => l
  | None => []
  end.

(** ** Strings *)

(** [s.split(sep)] for a one-character separator. *)
Fixpoint split (sep : ascii) (s : string) : list string :=
  match s with
  | EmptyString => [EmptyString]
  | String c s' =>
      if Ascii.eqb c sep then EmptyString :: split sep s'
      else match split sep s' with
           | [] => [String c EmptyString]
           | h :: t => String c h :: t
           end
  end.

(** [sep in s] *)
Fixpoint contains (sep : ascii) (s : string) : bool :=
  match s with
  | EmptyString => false
  | String c s' => Ascii.eqb c sep || contains sep s'
  end.

(** [s.startswith(p)] *)
Definition startswith (p s : string) : bool := String.prefix p s.

(** [s.rstrip(c)] for a one-character set. *)
Fixpoint rstrip (c : ascii) (s : string) : string :=
  match s with
  | EmptyString => EmptyString
  | String a s' =>
      match rstrip c s' with
      | EmptyString => if Ascii.eqb a c then EmptyString else String a EmptyString
      | r => String a r
      end
  end.

(** [str(i)] for the integers of f-strings. *)
Definition str_nat (n : nat) : string := NilZero.string_of_uint (Nat.to_uint n).
Definition str_Z (z : Z) : string := NilZero.string_of_int (Z.to_int z).

Definition colon : ascii := ":"%char.
Definition slash : ascii := "/"%char.

(** [xs[i]] on a list, raising [IndexError] out of range. *)
Definition index {A : Type} (xs : list A) (i : nat) : result A :=
  match nth_error xs i with
  | Some x => Ok x
  | None => Raise IndexError
  end.

(** [enumerate(xs)] *)
Fixpoint enumerate_from {A : Type} (i : nat) (xs : list A) : list (nat * A) :=
  match xs with
  | [] => []
  | x :: xs' => (i, x) :: enumerate_from (S i) xs'
  end.
Definition enumerate {A : Type} (xs : list A) : list (nat * A) := enumerate_from 0 xs.

(** ** Library functions

    [int], [str.upper], [str] and [urllib.parse.urlparse] belong to the
    Python runtime; the development is parametric in them.  [None] stands
    for the exception the function raises. *)

Record Url : Type := { scheme : string; netloc : string; path : string }.

Class Builtins : Type := {
  int_of_str : string -> option Z;
  str_upper : string -> string;
  str_of : pyval -> string;
  urlparse : string -> option Url
}.

(** [int(v)] *)
Definition py_int `{Builtins} (v : pyval) : result Z :=
  match v with
  | VInt z => Ok z
  | VBool b => Ok (if b then 1%Z else 0%Z)
  | VStr s => match int_of_str s with
              | Some z => Ok z
              | None => Raise (ValueError "invalid literal for int()")
              end
  | _ => Raise TypeError
  end.

(** [v.upper()] *)
Definition py_upper `{Builtins} (v : pyval) : result string :=
  match v with
  | VStr s => Ok (str_upper s)
  | _ => Raise AttributeError
  end.

(** The body of a [try: ... except Exception: continue] loop iteration
    that appends to an accumulator: what was appended before the
    exception stays appended. *)
Definition caught {A : Type} (r : list A * result unit) : list A := fst r.

(** ** The compose model (spec section 3, as the code reads it)

    One record serves the app and the sidecar: the code passes both to the
    same functions as dictionaries.  A field is [None] when the key is
    absent. *)

Record VolumesFromEntry : Type := {
  vf_config : option string;      (* volume['config']['name'], when 'config' in volume *)
  vf_mountPath : option pyval     (* volume.get('mountPath') *)
}.

Inductive EnvFromEntry : Type :=
| EnvConfig (name : string)       (* 'config' in item *)
| EnvSecret (name : string)       (* 'secret' in item *)
| EnvOther.

Record Spec : Type := {
  image : string;
  ports : option (list pyval);
  expose : option (list pyval);
  environment : option (list (string * pyval));
  envFrom : option (list EnvFromEntry);
  volumes : option (list pyval);
  volumesFrom : option (list VolumesFromEntry);
  networks : option pyval;
  env_file : option pyval
}.

Record AppSpec : Type := {
  app : Spec;
  sidecars : option (list (string * Spec));
  deploy : option (list (string * pyval))
}.

Record ConfigSpec : Type := {
  cfg_external : option bool;
  cfg_data : option pyval
}.

Record SecretSpec : Type := { sec_external : option bool }.

Record VolumeSpec : Type := { size : option pyval }.

Record ComposeModel : Type := {
  apps : list (string * AppSpec);
  cm_volumes : list (string * VolumeSpec);
  configs : list (string * ConfigSpec);
  secrets : list (string * SecretSpec)
}.

(** ** Generated manifests *)

Record ContainerPort : Type := { containerPort : Z; cp_protocol : string }.

Record ServicePort : Type := {
  sp_name : string;
  sp_port : Z;
  sp_targetPort : Z;
  sp_protocol : string
}.

Record Labels : Type := { l_app : string; l_component : string }.

Inductive ServiceType : Type := ClusterIP | LoadBalancer.

Record Service : Type := {
  svc_name : string;
  svc_namespace : string;
  svc_labels : Labels;
  svc_type : ServiceType;
  svc_ports : list ServicePort;
  svc_selector : Labels
}.

Record EnvVar : Type := { ev_name : string; ev_value : string }.

Inductive EnvFromSource : Type :=
| configMapRef (name : string)
| secretRef (name : string).

Record VolumeMount : Type := { vm_name : string; vm_mountPath : pyval }.

Inductive VolumeSource : Type :=
| configMap (name : string)
| hostPath (path : string)                 (* type: Directory *)
| persistentVolumeClaim (claimName : string).

Record Volume : Type := { vol_name : string; vol_source : VolumeSource }.

Record Container : Type := {
  c_name : string;
  c_image : string;
  c_ports : list ContainerPort;
  c_env : list EnvVar;
  c_volumeMounts : list VolumeMount;
  c_envFrom : option (list EnvFromSource)
}.

Record Deployment : Type := {
  dep_name : string;
  dep_namespace : string;
  dep_replicas : pyval;
  dep_matchLabels : string;        (* selector.matchLabels.app *)
  dep_podLabels : string;          (* template.metadata.labels.app *)
  dep_containers : list Container;
  dep_volumes : list Volume
}.

Record ConfigMap : Type := {
  cmap_name : string;
  cmap_namespace : string;
  cmap_data : pyval
}.

Record PVC : Type := {
  pvc_name : string;
  pvc_namespace : string;
  pvc_storage : pyval              (* accessModes is the constant [ReadWriteOnce] *)
}.

Record IngressRule : Type := {
  r_host : string;
  r_path : pyval;                  (* pathType is the constant Prefix *)
  r_service : string;
  r_port : pyval
}.

Record Ingress : Type := {
  ing_name : string;
  ing_namespace : string;
  ing_rules : list IngressRule;
  ing_className : option pyval     (* None: the key is not set *)
}.

Inductive Manifest : Type :=
| MConfigMap (c : ConfigMap)
| MPVC (p : PVC)
| MDeployment (d : Deployment)
| MService (s : Service)
| MIngress (i : Ingress).

(** [resource['metadata']['name']] *)
Definition metadata_name (m : Manifest) : string :=
  match m with
  | MConfigMap c => cmap_name c
  | MPVC p => pvc_name p
  | MDeployment d => dep_name d
  | MService s => svc_name s
  | MIngress i => ing_name i
  end.

(** A resource bundle: kind tag to manifests, in key insertion order. *)
Definition Bundle : Type := list (string * list Manifest).

(** ** generators/base_generator.py *)

Module BaseGenerator.
Section WithBuiltins.
Context `{Builtins}.

(** One iteration of the loop of [_convert_ports], inside its [try]. *)
Definition convert_port_dict_items (d : list (string * pyval))
  : list ContainerPort * result unit :=
  (* for domain, settings in port.items(): first entry whose settings is a
     dict holding 'port' appends and breaks *)
  (fix items (l : list (string * pyval)) : list ContainerPort * result unit :=
     match l with
     | [] => ([], Ok tt)
     | (_, VDict settings) :: l' =>
         match get "port" settings with
         | Some p =>
             match (n <- py_int p ;;
                    u <- py_upper (get_default "protocol" (VStr "TCP") settings) ;;
                    Ok {| containerPort := n; cp_protocol := u |}) with
             | Ok cp => ([cp], Ok tt)
             | Raise e => ([], Raise e)
             end
         | None => items l'
         end
     | _ :: l' => items l'
     end) d.

Definition convert_port_legacy (d : list (string * pyval))
  : list ContainerPort * result unit :=
  match get "port" d with
  | Some p =>
      match (n <- py_int p ;;
             u <- py_upper (get_default "protocol" (VStr "TCP") d) ;;
             Ok {| containerPort := n; cp_protocol := u |}) with
      | Ok cp => ([cp], Ok tt)
      | Raise e => ([], Raise e)
      end
  | None => ([], Ok tt)
  end.

Definition convert_port_entry (port : pyval) : list ContainerPort * result unit :=
  match port with
  | VStr s =>
      let r :=
        port' <- (if startswith "http" s then
                    match urlparse s with
                    | Some parsed =>
                        if contains colon (netloc parsed)
                        then index (split colon (netloc parsed)) 1
                        else Ok (if String.eqb (scheme parsed) "http" then "80" else "443")
                    | None => Raise (ValueError "urlparse")
                    end
                  else Ok s) ;;
        target <- index (split slash (last (split colon port') "")) 0 ;;
        n <- py_int (VStr target) ;;
        Ok {| containerPort := n; cp_protocol := "TCP" |} in
      match r with
      | Ok cp => ([cp], Ok tt)
      | Raise e => ([], Raise e)
      end
  | VDict d =>
      match convert_port_dict_items d with
      | (l1, Ok _) =>
          let (l2, r) := convert_port_legacy d in (l1 ++ l2, r)
      | (l1, Raise e) => (l1, Raise e)
      end
  | _ => ([], Ok tt)
  end.

Definition _convert_ports (ports : list pyval) : list ContainerPort :=
  flat_map (fun port => caught (convert_port_entry port)) ports.

(** One iteration of the loop of [_convert_service_ports], inside its
    [try]: the port appended, if any. *)
Definition convert_service_port_entry (port : pyval) : result (list ServicePort) :=
  match port with
  | VStr s =>
      match firstn 2 (split colon s) with
      | [source; target] =>
          target' <- index (split slash target) 0 ;;
          source_port <- py_int (VStr source) ;;
          target_port <- py_int (VStr target') ;;
          Ok [ {| sp_name := "port-" ++ str_Z source_port;
                  sp_port := source_port;
                  sp_targetPort := target_port;
                  sp_protocol := "TCP" |} ]
      | _ => Raise (ValueError "not enough values to unpack")
      end
  | VDict d =>
      published_port <- py_int (get_default "published" (VInt 80) d) ;;
      target_port <- py_int (get_default "target" (VInt 80) d) ;;
      protocol <- py_upper (get_default "protocol" (VStr "tcp") d) ;;
      Ok [ {| sp_name := "port-" ++ str_Z published_port;
              sp_port := published_port;
              sp_targetPort := target_port;
              sp_protocol := protocol |} ]
  | _ => Ok []
  end.

(** [except Exception: continue] *)
Definition or_skip {A : Type} (r : result (list A)) : list A :=
  match r with
  | Ok l => l
  | Raise _ => []
  end.

Definition _convert_service_ports (ports : list pyval) : list ServicePort :=
  flat_map (fun port => or_skip (convert_service_port_entry port)) ports.

Definition _convert_environment (env : list (string * pyval)) : list EnvVar :=
  map (fun kv => {| ev_name := fst kv; ev_value := str_of (snd kv) |}) env.

Definition _convert_env_from (env_from : list EnvFromEntry) : list EnvFromSource :=
  flat_map (fun item =>
              match item with
              | EnvConfig n => [configMapRef n]
              | EnvSecret n => [secretRef n]
              | EnvOther => []
              end) env_from.

End WithBuiltins.
End BaseGenerator.

(** ** generators/service_generator.py *)

Module ServiceGenerator.
Import BaseGenerator.
Section WithBuiltins.
Context `{Builtins}.

Definition needs_service (config : Spec) : bool :=
  nonempty (ports config) || nonempty (expose config).

Definition _is_external_port (port : pyval) : result bool :=
  match port with
  | VStr s => Ok (contains colon s)
  | VDict d => Ok (match get "published" d with
                   | Some v => truthy v
                   | None => false
                   end)
  | _ => Raise AttributeError
  end.

(** [any(self._is_external_port(p) for p in ports)]: stops at the first
    true answer. *)
Fixpoint any_external (ps : list pyval) : result bool :=
  match ps with
  | [] => Ok false
  | p :: ps' =>
      b <- _is_external_port p ;;
      if b then Ok true else any_external ps'
  end.

Definition main_labels (name : string) : Labels :=
  {| l_app := name; l_component := "main" |}.

Definition sidecar_labels (app_name sidecar_name : string) : Labels :=
  {| l_app := app_name; l_component := "sidecar-" ++ sidecar_name |}.

(** The port of a main-app Service: the converted port under a fixed name. *)
Definition renamed (n : string) (port : ServicePort) : ServicePort :=
  {| sp_name := n;
     sp_port := sp_port port;
     sp_targetPort := sp_targetPort port;
     sp_protocol := sp_protocol port |}.

Definition default_service (ns name : string) (port : ServicePort) : Service :=
  {| svc_name := name;
     svc_namespace := ns;
     svc_labels := main_labels name;
     svc_type := ClusterIP;
     svc_ports := [renamed "default" port];
     svc_selector := main_labels name |}.

Definition lb_service (ns name : string) (port : ServicePort) : Service :=
  {| svc_name := name ++ "-lb";
     svc_namespace := ns;
     svc_labels := main_labels name;
     svc_type := LoadBalancer;
     svc_ports := [renamed "lb-https" port];
     svc_selector := main_labels name |}.

Definition ingress_service (ns name : string) : Service :=
  {| svc_name := name ++ "-ingress";
     svc_namespace := ns;
     svc_labels := main_labels name;
     svc_type := ClusterIP;
     svc_ports := [ {| sp_name := "ingress-http"; sp_port := 80;
                       sp_targetPort := 80; sp_protocol := "TCP" |} ];
     svc_selector := main_labels name |}.

Definition _generate_sidecar_services (ns app_name sidecar_name : string)
    (config : Spec) : result (list Service) :=
  let service_name := (app_name ++ "-" ++ sidecar_name)%string in
  if nonempty (ports config) then
    let raw := or_empty (ports config) in
    let converted := _convert_service_ports raw in
    let cluster_ip :=
      {| svc_name := service_name;
         svc_namespace := ns;
         svc_labels := sidecar_labels app_name sidecar_name;
         svc_type := ClusterIP;
         svc_ports := map (fun ip => renamed ("port-" ++ str_nat (fst ip)) (snd ip))
                          (enumerate converted);
         svc_selector := sidecar_labels app_name sidecar_name |} in
    ext <- any_external raw ;;
    if ext then
      Ok [ cluster_ip;
           {| svc_name := service_name ++ "-lb";
              svc_namespace := ns;
              svc_labels := sidecar_labels app_name sidecar_name;
              svc_type := LoadBalancer;
              svc_ports := map (fun ip => renamed ("lb-port-" ++ str_nat (fst ip)) (snd ip))
                               (enumerate converted);
              svc_selector := sidecar_labels app_name sidecar_name |} ]
    else Ok [cluster_ip]
  else Ok [].

(** The loop over [sidecars.items()]. *)
Fixpoint sidecar_services (ns name : string) (scs : list (string * Spec))
  : result (list Service) :=
  match scs with
  | [] => Ok []
  | (sidecar_name, sidecar_config) :: scs' =>
      here <- (if needs_service sidecar_config
               then _generate_sidecar_services ns name sidecar_name sidecar_config
               else Ok []) ;;
      rest <- sidecar_services ns name scs' ;;
      Ok (here ++ rest)
  end.

Definition generate (ns name : string) (config : AppSpec) : result (list Service) :=
  let raw := or_empty (ports (app config)) in
  (* 1. default ClusterIP service *)
  dflt <- (if nonempty (ports (app config)) then
             port <- index (_convert_service_ports raw) 0 ;;
             Ok [default_service ns name port]
           else Ok []) ;;
  (* sidecar services *)
  scs <- sidecar_services ns name (or_empty (sidecars config)) ;;
  (* 2. LoadBalancer service for the second port *)
  lb <- (if nonempty (ports (app config)) && (1 <? length raw)%nat then
           port <- index (_convert_service_ports raw) 1 ;;
           Ok [lb_service ns name port]
         else Ok []) ;;
  (* 3. ClusterIP service for expose *)
  let ing := if nonempty (expose (app config)) then [ingress_service ns name] else [] in
  Ok (dflt ++ scs ++ lb ++ ing).

End WithBuiltins.
End ServiceGenerator.

(** ** generators/volume_generator.py *)

Module VolumeGenerator.

Definition volumes_from_volumes (vfs : list VolumesFromEntry) : list Volume :=
  flat_map (fun volume =>
              match vf_config volume with
              | Some config_name =>
                  [ {| vol_name := "config-" ++ config_name;
                       vol_source := configMap ("config-" ++ config_name) |} ]
              | None => []
              end) vfs.

Definition positional_volume (name : string) (iv : nat * pyval) : list Volume :=
  match snd iv with
  | VStr s =>
      match split colon s with
      | host_path :: mount_path :: _ =>
          let volume_name := ("vol-" ++ name ++ "-" ++ str_nat (fst iv))%string in
          if startswith "/" host_path
          then [ {| vol_name := volume_name; vol_source := hostPath host_path |} ]
          else [ {| vol_name := volume_name;
                    vol_source := persistentVolumeClaim host_path |} ]
      | _ => []
      end
  | _ => []
  end.

Definition _generate_container_volumes (name : string) (config : Spec) : list Volume :=
  match volumesFrom config with
  | Some vfs => volumes_from_volumes vfs
  | None => []
  end
  ++
  match volumes config with
  | Some vs => flat_map (positional_volume name) (enumerate vs)
  | None => []
  end.

Definition set_volumes (vs : option (list pyval)) (c : Spec) : Spec :=
  {| image := image c; ports := ports c; expose := expose c;
     environment := environment c; envFrom := envFrom c;
     volumes := vs; volumesFrom := volumesFrom c;
     networks := networks c; env_file := env_file c |}.

(** [if 'volumes' in config and 'volumes' not in sidecar_config:
       sidecar_config['volumes'] = config['volumes']]:
    the sidecar dictionary after the statement. *)
Definition inherit_volumes (config sidecar_config : Spec) : Spec :=
  match volumes config, volumes sidecar_config with
  | Some vs, None => set_volumes (Some vs) sidecar_config
  | _, _ => sidecar_config
  end.

(** The loop over [sidecars.items()]: the volumes collected and the
    sidecar dictionaries as the loop leaves them. *)
Fixpoint sidecar_volumes (name : string) (config : Spec) (scs : list (string * Spec))
  : list Volume * list (string * Spec) :=
  match scs with
  | [] => ([], [])
  | (sidecar_name, sidecar_config) :: scs' =>
      let sidecar_config' := inherit_volumes config sidecar_config in
      let here := _generate_container_volumes (name ++ "-" ++ sidecar_name) sidecar_config' in
      let (rest, scs'') := sidecar_volumes name config scs' in
      (here ++ rest, (sidecar_name, sidecar_config') :: scs'')
  end.

(** The de-duplication loop; [seen_names] is the set built so far. *)
Fixpoint unique_volumes (seen_names : list string) (vs : list Volume) : list Volume :=
  match vs with
  | [] => []
  | volume :: vs' =>
      if existsb (String.eqb (vol_name volume)) seen_names
      then unique_volumes seen_names vs'
      else volume :: unique_volumes (vol_name volume :: seen_names) vs'
  end.

(** [generate_volumes]: its return value and the [config] dictionary as
    the call leaves it. *)
Definition generate_volumes (name : string) (config : AppSpec)
  : list Volume * AppSpec :=
  let main := _generate_container_volumes name (app config) in
  match sidecars config with
  | Some scs =>
      let (sc_vols, scs') := sidecar_volumes name (app config) scs in
      (unique_volumes [] (main ++ sc_vols),
       {| app := app config; sidecars := Some scs'; deploy := deploy config |})
  | None => (unique_volumes [] main, config)
  end.

Definition generate_pvc (ns name : string) (config : VolumeSpec) : PVC :=
  {| pvc_name := name;
     pvc_namespace := ns;
     pvc_storage := match size config with
                    | Some s => s
                    | None => VStr "1Gi"
                    end |}.

End VolumeGenerator.

(** ** generators/deployment_generator.py *)

Record DeployResources : Type := {
  deployments : list Deployment;
  configmaps : list ConfigMap
}.

Module DeploymentGenerator.
Import BaseGenerator.
Section WithBuiltins.
Context `{Builtins}.

Definition volume_mount (name : string) (iv : nat * pyval) : list VolumeMount :=
  match snd iv with
  | VStr s =>
      match split colon s with
      | _ :: mount_path :: _ =>
          (* the same volume name as in volume_generator *)
          [ {| vm_name := "vol-" ++ name ++ "-" ++ str_nat (fst iv);
               vm_mountPath := VStr mount_path |} ]
      | _ => []
      end
  | _ => []
  end.

Definition _convert_volume_mounts (name : string) (vols : list pyval) : list VolumeMount :=
  flat_map (volume_mount name) (enumerate vols).

Definition _convert_volumes_from (volumes_from : list VolumesFromEntry) : list VolumeMount :=
  flat_map (fun volume =>
              match vf_config volume with
              | Some config_name =>
                  [ {| vm_name := "config-" ++ config_name;
                       vm_mountPath :=
                         match vf_mountPath volume with
                         | Some p => p
                         | None => VStr ("/config/" ++ config_name)
                         end |} ]
              | None => []
              end) volumes_from.

Definition _create_container (name : string) (config : Spec) : Container :=
  {| c_name := name;
     c_image := image config;
     c_ports := _convert_ports (or_empty (ports config));
     c_env := _convert_environment (or_empty (environment config));
     c_volumeMounts :=
       _convert_volume_mounts name (or_empty (volumes config))
       ++ match volumesFrom config with
          | Some vfs => _convert_volumes_from vfs
          | None => []
          end;
     c_envFrom := option_map _convert_env_from (envFrom config) |}.

(** [merged = sidecar_config.copy()], then each inheritable field is taken
    from the app when the sidecar does not have it. *)
Definition inherit {A : Type} (from_app from_sidecar : option A) : option A :=
  match from_sidecar with
  | Some v => Some v
  | None => from_app
  end.

Definition _merge_sidecar_config (app_config sidecar_config : Spec) : Spec :=
  {| image := image sidecar_config;
     ports := ports sidecar_config;
     expose := expose sidecar_config;
     environment := environment sidecar_config;
     envFrom := envFrom sidecar_config;
     volumes := inherit (volumes app_config) (volumes sidecar_config);
     volumesFrom := inherit (volumesFrom app_config) (volumesFrom sidecar_config);
     networks := inherit (networks app_config) (networks sidecar_config);
     env_file := inherit (env_file app_config) (env_file sidecar_config) |}.

Definition inline_configmaps (ns : string) (cfgs : list (string * ConfigSpec))
  : list ConfigMap :=
  flat_map (fun nc =>
              if match cfg_external (snd nc) with Some b => b | None => false end
              then []
              else [ {| cmap_name := "config-" ++ fst nc;
                        cmap_namespace := ns;
                        cmap_data := match cfg_data (snd nc) with
                                     | Some d => d
                                     | None => VDict []
                                     end |} ]) cfgs.

(** [generate]: the resources returned and the [config] dictionary as the
    call leaves it ([generate_volumes] writes into the sidecars). *)
Definition generate (ns name : string) (config : AppSpec)
    (compose_config : option ComposeModel) : DeployResources * AppSpec :=
  let cms := match compose_config with
             | Some compose => inline_configmaps ns (configs compose)
             | None => []
             end in
  let main_container := _create_container name (app config) in
  let sidecar_containers :=
    map (fun sc => _create_container (name ++ "-" ++ fst sc)
                     (_merge_sidecar_config (app config) (snd sc)))
        (or_empty (sidecars config)) in
  let (vols, config') := VolumeGenerator.generate_volumes name config in
  ({| deployments :=
        [ {| dep_name := name;
             dep_namespace := ns;
             dep_replicas := get_default "replicas" (VInt 1) (or_empty (deploy config));
             dep_matchLabels := name;
             dep_podLabels := name;
             dep_containers := main_container :: sidecar_containers;
             dep_volumes := vols |} ];
      configmaps := cms |},
   config').

End WithBuiltins.
End DeploymentGenerator.

(** ** generators/ingress_generator.py *)

Module IngressGenerator.
Section WithBuiltins.
Context `{Builtins}.

(** The function's local variables that outlive one loop iteration:
    [host], [path] and [service_port] (bound together, or not yet bound),
    the rules and the running class name. *)
Record Locals : Type := {
  bound : option (string * pyval * pyval);
  rules : list IngressRule;
  ingress_class_name : pyval
}.

Definition rule (name : string) (hpp : string * pyval * pyval) : IngressRule :=
  let '(host, pth, service_port) := hpp in
  {| r_host := host; r_path := pth; r_service := name; r_port := service_port |}.

(** [rules.append(...)] at the end of the [try]: a [NameError] when the
    variables were never bound, which the [except] turns into [continue]. *)
Definition append_rule (name : string) (st : Locals) : Locals :=
  match bound st with
  | Some hpp =>
      {| bound := bound st;
         rules := rules st ++ [rule name hpp];
         ingress_class_name := ingress_class_name st |}
  | None => st
  end.

(** [for domain, settings in expose.items()] *)
Fixpoint expose_items (items : list (string * pyval)) (st : Locals) : Locals :=
  match items with
  | [] => st
  | (domain, VDict settings) :: items' =>
      expose_items items'
        {| bound := Some (rstrip colon domain,
                          get_default "path" (VStr "/") settings,
                          get_default "port" (VInt 80) settings);
           rules := rules st;
           ingress_class_name :=
             match get "ingressClassName" settings with
             | Some c => c
             | None => ingress_class_name st
             end |}
  | _ :: items' => expose_items items' st
  end.

Definition expose_entry (name : string) (st : Locals) (entry : pyval) : Locals :=
  match entry with
  | VStr s =>
      if startswith "http://" s || startswith "https://" s then
        match urlparse s with
        | Some parsed =>
            let host := if contains colon (netloc parsed)
                        then hd "" (split colon (netloc parsed))
                        else netloc parsed in
            let pth := if String.eqb (path parsed) "" then "/" else path parsed in
            let service_port := if String.eqb (scheme parsed) "http"
                                then VInt 80 else VInt 443 in
            append_rule name
              {| bound := Some (host, VStr pth, service_port);
                 rules := rules st;
                 ingress_class_name := ingress_class_name st |}
        | None => st
        end
      else st
  | VDict [] => st
  | VDict items => append_rule name (expose_items items st)
  | _ => st
  end.

Definition generate (ns name : string) (config : Spec) : option Ingress :=
  match expose config with
  | None => None
  | Some entries =>
      let st := fold_left (expose_entry name) entries
                  {| bound := None; rules := [];
                     ingress_class_name := VStr "traefik" |} in
      match rules st with
      | [] => None
      | rs =>
          Some {| ing_name := name;
                  ing_namespace := ns;
                  ing_rules := rs;
                  ing_className := if truthy (ingress_class_name st)
                                   then Some (ingress_class_name st)
                                   else None |}
      end
  end.

End WithBuiltins.
End IngressGenerator.

(** ** generators/kube_generator.py *)

Module KubeResourceGenerator.
Section WithBuiltins.
Context `{Builtins}.

(** The accumulator [resources] of [generate_all], by kind. *)
Record Resources : Type := {
  res_configmaps : list ConfigMap;
  res_pvcs : list PVC;
  res_deployments : list Deployment;
  res_services : list Service;
  res_ingress : list Ingress
}.

(** [next((s for s in services if ...component == 'main'), None)] *)
Definition service_for_ingress (services : list Service) : option Service :=
  find (fun s => String.eqb (l_component (svc_labels s)) "main") services.

(** One iteration of the loop over [apps.items()]: what it appends, and
    the app dictionary as it leaves it. *)
Definition generate_app (ns : string) (compose : ComposeModel)
    (app_name : string) (app_config : AppSpec) : result (Resources * AppSpec) :=
  let (app_resources, app_config') :=
    DeploymentGenerator.generate ns app_name app_config (Some compose) in
  svc_ing <-
    (if ServiceGenerator.needs_service (app app_config') then
       services <- ServiceGenerator.generate ns app_name app_config' ;;
       let ingress :=
         match expose (app app_config'), service_for_ingress services with
         | Some _, Some _ =>
             match IngressGenerator.generate ns app_name (app app_config') with
             | Some i => [i]
             | None => []
             end
         | _, _ => []
         end in
       Ok (services, ingress)
     else Ok ([], [])) ;;
  Ok ({| res_configmaps := configmaps app_resources;
         res_pvcs := [];
         res_deployments := deployments app_resources;
         res_services := fst svc_ing;
         res_ingress := snd svc_ing |},
      app_config').

Definition extend (a b : Resources) : Resources :=
  {| res_configmaps := res_configmaps a ++ res_configmaps b;
     res_pvcs := res_pvcs a ++ res_pvcs b;
     res_deployments := res_deployments a ++ res_deployments b;
     res_services := res_services a ++ res_services b;
     res_ingress := res_ingress a ++ res_ingress b |}.

(** The loop over the apps.  The [configs] a later app reads are those of
    the model: the loop writes only into sidecar dictionaries. *)
Fixpoint generate_apps (ns : string) (compose : ComposeModel)
    (l : list (string * AppSpec)) (acc : Resources)
  : result (Resources * list (string * AppSpec)) :=
  match l with
  | [] => Ok (acc, [])
  | (app_name, app_config) :: l' =>
      r <- generate_app ns compose app_name app_config ;;
      rest <- generate_apps ns compose l' (extend acc (fst r)) ;;
      Ok (fst rest, (app_name, snd r) :: snd rest)
  end.

(** [{k: v for k, v in resources.items() if v}] *)
Definition to_bundle (r : Resources) : Bundle :=
  filter (fun kv => match snd kv with [] => false | _ => true end)
    [ ("configmaps", map MConfigMap (res_configmaps r));
      ("pvcs", map MPVC (res_pvcs r));
      ("deployments", map MDeployment (res_deployments r));
      ("services", map MService (res_services r));
      ("ingress", map MIngress (res_ingress r)) ].

(** [generate_all]: the accumulated resources and the compose model
    ([self.config]) as the call leaves it. *)
Definition generate_resources (ns : string) (compose : ComposeModel)
  : result (Resources * ComposeModel) :=
  let pvcs := map (fun nv => VolumeGenerator.generate_pvc ns (fst nv) (snd nv))
                  (cm_volumes compose) in
  r <- generate_apps ns compose (apps compose)
         {| res_configmaps := []; res_pvcs := pvcs; res_deployments := [];
            res_services := []; res_ingress := [] |} ;;
  Ok (fst r,
      {| apps := snd r; cm_volumes := cm_volumes compose;
         configs := configs compose; secrets := secrets compose |}).

Definition generate_all (ns : string) (compose : ComposeModel)
  : result (Bundle * ComposeModel) :=
  r <- generate_resources ns compose ;;
  Ok (to_bundle (fst r), snd r).

End WithBuiltins.
End KubeResourceGenerator.

(** ** parsers/validators.py: the referential checks of [ComposeValidator] *)

Module ComposeValidator.

(** [name in external_configs] on a set of names. *)
Definition mem (x : string) (s : list string) : bool := existsb (String.eqb x) s.

(** [prefix = f"Sidecar '{sidecar_name}' in " if sidecar_name else ""] *)
Definition sidecar_prefix (sidecar_name : option string) : string :=
  match sidecar_name with
  | Some s => if String.eqb s "" then "" else "Sidecar '" ++ s ++ "' in "
  | None => ""
  end.

Definition missing_config_msg (sidecar_name : option string) (app_name config_name : string)
  : string :=
  sidecar_prefix sidecar_name ++ "App '" ++ app_name ++ "' references config '"
    ++ config_name ++ "' which does not exist".

Definition external_config_msg (sidecar_name : option string) (app_name config_name : string)
  : string :=
  sidecar_prefix sidecar_name ++ "App '" ++ app_name ++ "' references config '"
    ++ config_name ++ "' which is marked as external but not found in external configs".

Definition app_secret_msg (app_name secret_name : string) : string :=
  "App '" ++ app_name ++ "' references secret '" ++ secret_name
    ++ "' which is not marked as external".

Definition sidecar_secret_msg (sidecar_name app_name secret_name : string) : string :=
  "Sidecar '" ++ sidecar_name ++ "' in app '" ++ app_name ++ "' references secret '"
    ++ secret_name ++ "' which is not marked as external".

Definition _validate_config_reference (config_name app_name : string)
    (cfgs : list (string * ConfigSpec)) (external_configs : list string)
    (sidecar_name : option string) : result unit :=
  match get config_name cfgs with
  | None => Raise (ValueError (missing_config_msg sidecar_name app_name config_name))
  | Some c =>
      if match cfg_external c with Some b => b | None => false end then
        if mem config_name external_configs then Ok tt
        else Raise (ValueError (external_config_msg sidecar_name app_name config_name))
      else Ok tt
  end.

(** [for x in xs: body(x)], stopping at the first exception. *)
Fixpoint for_each {A : Type} (body : A -> result unit) (xs : list A) : result unit :=
  match xs with
  | [] => Ok tt
  | x :: xs' => _ <- body x ;; for_each body xs'
  end.

(** [if config_name:] on a string. *)
Definition named (s : string) : bool := negb (String.eqb s "").

Definition check_volume_from (app_name : string) (sidecar_name : option string)
    (cfgs : list (string * ConfigSpec)) (external_configs : list string)
    (volume : VolumesFromEntry) : result unit :=
  match vf_config volume with
  | Some config_name =>
      if named config_name
      then _validate_config_reference config_name app_name cfgs external_configs sidecar_name
      else Ok tt
  | None => Ok tt
  end.

Definition check_env_from (app_name : string) (sidecar_name : option string)
    (cfgs : list (string * ConfigSpec)) (external_configs external_secrets : list string)
    (env : EnvFromEntry) : result unit :=
  match env with
  | EnvConfig config_name =>
      if named config_name
      then _validate_config_reference config_name app_name cfgs external_configs sidecar_name
      else Ok tt
  | EnvSecret secret_name =>
      if named secret_name && negb (mem secret_name external_secrets) then
        Raise (ValueError
                 match sidecar_name with
                 | Some sc => sidecar_secret_msg sc app_name secret_name
                 | None => app_secret_msg app_name secret_name
                 end)
      else Ok tt
  | EnvOther => Ok tt
  end.

(** The checks of one container dictionary: [volumesFrom], then [envFrom]. *)
Definition check_spec (app_name : string) (sidecar_name : option string)
    (cfgs : list (string * ConfigSpec)) (external_configs external_secrets : list string)
    (config : Spec) : result unit :=
  _ <- for_each (check_volume_from app_name sidecar_name cfgs external_configs)
         (or_empty (volumesFrom config)) ;;
  for_each (check_env_from app_name sidecar_name cfgs external_configs external_secrets)
    (or_empty (envFrom config)).

Definition check_app (cfgs : list (string * ConfigSpec))
    (external_configs external_secrets : list string)
    (na : string * AppSpec) : result unit :=
  let (app_name, app_config) := na in
  _ <- check_spec app_name None cfgs external_configs external_secrets (app app_config) ;;
  for_each (fun sc => check_spec app_name (Some (fst sc)) cfgs external_configs
                        external_secrets (snd sc))
    (or_empty (sidecars app_config)).

Definition _validate_external_resources (compose_data : ComposeModel)
    (external_configs external_secrets : list string) : result unit :=
  for_each (check_app (configs compose_data) external_configs external_secrets)
    (apps compose_data).

End ComposeValidator.

(** ** core/resource_manager.py *)

Inductive Kind : Type := KConfigMap | KPVC | KService | KDeployment | KIngress.

(** The calls the manager places on the cluster client. *)
Inductive Call : Type :=
| read (k : Kind) (name ns : string)
| patch (k : Kind) (name ns : string) (body : Manifest)
| create (k : Kind) (ns : string) (body : Manifest)
| delete (k : Kind) (name ns : string).

(** A client call returns, or raises [ApiException] with a status. *)
Inductive Response : Type :=
| Success
| Failure (status : Z) (reason : string).

(** The cluster behind the client: its answer to a call and its state
    afterwards.  [api_str] is [str(e)] of an [ApiException]. *)
Class Cluster (St : Type) : Type := {
  respond : St -> Call -> Response * St;
  api_str : Z -> string -> string
}.

Module ResourceManager.
Section WithCluster.
Context {St : Type} `{Cluster St}.

(** The state a run threads: the cluster and the calls placed so far. *)
Record World : Type := { cluster : St; calls : list Call }.

Definition M (A : Type) : Type := World -> result A * World.

Definition ret {A : Type} (a : A) : M A := fun w => (Ok a, w).
Definition raise {A : Type} (e : exn) : M A := fun w => (Raise e, w).
Definition bindM {A B : Type} (m : M A) (k : A -> M B) : M B :=
  fun w => match m w with
           | (Ok a, w') => k a w'
           | (Raise e, w') => (Raise e, w')
           end.

Definition call (c : Call) : M Response :=
  fun w => let (r, s) := respond (cluster w) c in
           (Ok r, {| cluster := s; calls := calls w ++ [c] |}).

(** A client method: returns, or raises the [ApiException]. *)
Definition api (c : Call) : M unit :=
  bindM (call c) (fun r =>
    match r with
    | Success => ret tt
    | Failure status reason => raise (ApiException status reason)
    end).

(** [try: m except ApiException as e: handler(e)] *)
Definition try_api {A : Type} (m : M A) (handler : Z -> string -> M A) : M A :=
  fun w => match m w with
           | (Raise (ApiException status reason), w') => handler status reason w'
           | r => r
           end.

(** [try: m except Exception as e: raise Exception(wrap(e))] *)
Definition try_wrap {A : Type} (m : M A) (wrap : exn -> string) : M A :=
  fun w => match m w with
           | (Raise e, w') => (Raise (Exception (wrap e)), w')
           | r => r
           end.

Fixpoint for_ {A : Type} (xs : list A) (body : A -> M unit) : M unit :=
  match xs with
  | [] => ret tt
  | x :: xs' => bindM (body x) (fun _ => for_ xs' body)
  end.

(** The API family a [resource_type] tag selects. *)
Definition kind_of (resource_type : string) : option Kind :=
  if String.eqb resource_type "configmaps" then Some KConfigMap
  else if String.eqb resource_type "pvcs" then Some KPVC
  else if String.eqb resource_type "services" then Some KService
  else if String.eqb resource_type "deployments" then Some KDeployment
  else if String.eqb resource_type "ingress" then Some KIngress
  else None.

(** [str(e)] *)
Definition str_exn (e : exn) : string :=
  match e with
  | ApiException status reason => api_str status reason
  | Exception msg => msg
  | ValueError msg => msg
  | _ => ""
  end.

Definition apply_msg (resource_type name : string) (e : exn) : string :=
  "Failed to apply " ++ resource_type ++ " '" ++ name ++ "': " ++ str_exn e.

Definition delete_msg (resource_type name : string) (e : exn) : string :=
  "Failed to delete " ++ resource_type ++ " '" ++ name ++ "': " ++ str_exn e.

(** The inner [try] of [apply_resources] for one resource: read, then
    patch; a 404 from either leads to create. *)
Definition read_patch_or_create (ns : string) (k : Kind) (resource : Manifest) : M unit :=
  let name := metadata_name resource in
  try_api
    (bindM (api (read k name ns)) (fun _ => api (patch k name ns resource)))
    (fun status reason =>
       if Z.eqb status 404 then api (create k ns resource)
       else raise (ApiException status reason)).

Definition apply_resource (ns resource_type : string) (resource : Manifest) : M unit :=
  try_wrap
    match kind_of resource_type with
    | Some k => read_patch_or_create ns k resource
    | None => ret tt
    end
    (apply_msg resource_type (metadata_name resource)).

Definition apply_resources (ns : string) (resources : Bundle) : M unit :=
  for_ resources (fun kv =>
    for_ (snd kv) (apply_resource ns (fst kv))).

Definition delete_resource (ns resource_type : string) (resource : Manifest) : M unit :=
  let name := metadata_name resource in
  match kind_of resource_type with
  | Some k =>
      try_api (api (delete k name ns))
        (fun status reason =>
           if negb (Z.eqb status 404)
           then raise (Exception (delete_msg resource_type name
                                    (ApiException status reason)))
           else ret tt)
  | None => ret tt
  end.

Definition resource_types : list string :=
  ["ingress"; "deployments"; "services"; "configmaps"; "pvcs"].

Definition delete_resources (ns : string) (resources : Bundle) : M unit :=
  for_ resource_types (fun resource_type =>
    match get resource_type resources with
    | None => ret tt
    | Some resource_list => for_ resource_list (delete_resource ns resource_type)
    end).

End WithCluster.
End ResourceManager.

(** ** parsers/validators.py: [KubernetesResourceValidator] *)

Inductive ExternalKind : Type := ExtConfigMap | ExtSecret.

(** The two reads the validator places on [core_v1],
    [read_namespaced_config_map(name, namespace)] and
    [read_namespaced_secret(name, namespace)], with the API server's
    answer. *)
Definition CoreV1 : Type := ExternalKind -> string -> string -> Response.

Module KubernetesResourceValidator.
Import ComposeValidator.

Definition not_found_msg (k : ExternalKind) (name ns : string) : string :=
  match k with
  | ExtConfigMap => "ConfigMap '" ++ name ++ "' not found in namespace '" ++ ns ++ "'"
  | ExtSecret => "Secret '" ++ name ++ "' not found in namespace '" ++ ns ++ "'"
  end.

(** The body of the loops of [_validate_configs] and [_validate_secrets]:
    a 404 becomes a [ValueError], any other [ApiException] is re-raised. *)
Definition validate_one (core_v1 : CoreV1) (ns : string) (k : ExternalKind)
    (name : string) : result unit :=
  match core_v1 k name ns with
  | Success => Ok tt
  | Failure status reason =>
      if Z.eqb status 404 then Raise (ValueError (not_found_msg k name ns))
      else Raise (ApiException status reason)
  end.

Definition _validate_configs (core_v1 : CoreV1) (ns : string) (cfgs : list string)
  : result unit :=
  for_each (validate_one core_v1 ns ExtConfigMap) cfgs.

Definition _validate_secrets (core_v1 : CoreV1) (ns : string) (secs : list string)
  : result unit :=
  for_each (validate_one core_v1 ns ExtSecret) secs.

(** [if not self.core_v1: return] *)
Definition validate_external_resources (core_v1 : option CoreV1) (ns : string)
    (cfgs secs : list string) : result unit :=
  match core_v1 with
  | None => Ok tt
  | Some c =>
      _ <- _validate_configs c ns cfgs ;;
      _validate_secrets c ns secs
  end.

End KubernetesResourceValidator.

(** ** parsers/compose_parser.py *)

Module ComposeParser.
Import ComposeValidator.

(** [config.get('external', False)] *)
Definition external (o : option bool) : bool :=
  match o with
  | Some b => b
  | None => false
  end.

(** The sets of names are lists; only membership is read off them. *)
Definition _get_external_configs (cfgs : list (string * ConfigSpec)) : list string :=
  map fst (filter (fun nc => external (cfg_external (snd nc))) cfgs).

Definition _get_external_secrets (secs : list (string * SecretSpec)) : list string :=
  map fst (filter (fun ns => external (sec_external (snd ns))) secs).

(** The names [volume['config']['name']] of a [volumesFrom] list, for the
    entries that have the key ['config']. *)
Definition volumes_from_names (vfs : option (list VolumesFromEntry)) : list string :=
  flat_map (fun volume => match vf_config volume with
                          | Some n => [n]
                          | None => []
                          end) (or_empty vfs).

Definition _get_referenced_configs (aps : list (string * AppSpec)) : list string :=
  flat_map (fun na =>
              volumes_from_names (volumesFrom (app (snd na)))
              ++ flat_map (fun sc => volumes_from_names (volumesFrom (snd sc)))
                   (or_empty (sidecars (snd na)))) aps.

(** [external_configs & referenced_configs] *)
Definition intersection (a b : list string) : list string :=
  filter (fun n => mem n b) a.

(** [parse] after the file is loaded.  [validate_schema] is the JSON
    schema check of [validate_compose] with the failure it re-raises
    (the schema file is not part of the sources); [core_v1] is [None]
    when the cluster is not consulted or its configuration did not
    load. *)
Definition parse (validate_schema : ComposeModel -> result unit)
    (core_v1 : option CoreV1) (skip_k8s_check : bool) (ns : string)
    (compose_data : ComposeModel) : result ComposeModel :=
  let external_configs := _get_external_configs (configs compose_data) in
  let external_secrets := _get_external_secrets (secrets compose_data) in
  let referenced_configs := _get_referenced_configs (apps compose_data) in
  _ <- validate_schema compose_data ;;
  _ <- _validate_external_resources compose_data external_configs external_secrets ;;
  let external_configs_to_validate := intersection external_configs referenced_configs in
  _ <- (match core_v1 with
        | Some _ =>
            if negb skip_k8s_check
            then KubernetesResourceValidator.validate_external_resources core_v1 ns
                   external_configs_to_validate external_secrets
            else Ok tt
        | None => Ok tt
        end) ;;
  Ok compose_data.

End ComposeParser.

(** ** core/resource_manager.py: secret and ConfigMap data *)

(** [str.strip] and [base64.b64encode(...).decode()] belong to the Python
    runtime. *)
Class Text : Type := {
  strip : string -> string;
  b64encode : string -> string
}.

Module ResourceData.
Section WithText.
Context `{Text}.

(** [s.split(sep, 1)] when it has two parts: the text before the first
    separator and the text after it. *)
Fixpoint split_first (sep : ascii) (s : string) : option (string * string) :=
  match s with
  | EmptyString => None
  | String c s' =>
      if Ascii.eqb c sep then Some (EmptyString, s')
      else match split_first sep s' with
           | Some (a, b) => Some (String c a, b)
           | None => None
           end
  end.

(** [data[key] = value]: a key already there keeps its place. *)
Fixpoint set_item {V : Type} (key : string) (value : V) (data : list (string * V))
  : list (string * V) :=
  match data with
  | [] => [(key, value)]
  | (k, v) :: data' =>
      if String.eqb key k then (k, value) :: data'
      else (k, v) :: set_item key value data'
  end.

(** [key, value = item.split('=', 1); data[key.strip()] = encode(value.strip())] *)
Definition assign (encode : string -> string) (data : list (string * string))
    (item : string) : result (list (string * string)) :=
  match split_first "=" item with
  | Some (key, value) => Ok (set_item (strip key) (encode (strip value)) data)
  | None => Raise (ValueError "not enough values to unpack (expected 2, got 1)")
  end.

(** The loop over the lines of the env file. *)
Fixpoint load_lines (encode : string -> string) (lines : list string)
    (data : list (string * string)) : result (list (string * string)) :=
  match lines with
  | [] => Ok data
  | line :: lines' =>
      let line' := strip line in
      if negb (String.eqb line' "") && negb (startswith "#" line') then
        data' <- assign encode data line' ;;
        load_lines encode lines' data'
      else load_lines encode lines' data
  end.

(** The loop over [from_literal]. *)
Fixpoint load_literals (encode : string -> string) (items : list string)
    (data : list (string * string)) : result (list (string * string)) :=
  match items with
  | [] => Ok data
  | item :: items' =>
      data' <- assign encode data item ;;
      load_literals encode items' data'
  end.

(** The common body of [create_secret_data] and [create_config_data];
    [from_env_file] is the lines of the file when a path is given. *)
Definition create_data (encode : string -> string)
    (from_env_file : option (list string)) (from_literal : list string)
  : result (list (string * string)) :=
  data <- match from_env_file with
          | Some lines => load_lines encode lines []
          | None => Ok []
          end ;;
  load_literals encode from_literal data.

Definition create_secret_data := create_data b64encode.

Definition create_config_data := create_data (fun value => value).

End WithText.
End ResourceData.

(** ** Instances used to run the definitions on examples *)

(** Plain ASCII readings of the library functions: decimal numerals,
    [a-z] to [A-Z], and [scheme://netloc/path] URLs. *)
Module Ascii_builtins.

Definition dec_int (s : string) : option Z :=
  option_map Z.of_int (NilZero.int_of_string s).

Definition upper_char (c : ascii) : ascii :=
  let n := nat_of_ascii c in
  if (97 <=? n)%nat && (n <=? 122)%nat then ascii_of_nat (n - 32) else c.

Fixpoint upper (s : string) : string :=
  match s with
  | EmptyString => EmptyString
  | String c s' => String (upper_char c) (upper s')
  end.

Definition str (v : pyval) : string :=
  match v with
  | VNone => "None"
  | VBool true => "True"
  | VBool false => "False"
  | VInt z => str_Z z
  | VStr s => s
  | _ => ""
  end.

Fixpoint drop (n : nat) (s : string) : string :=
  match n, s with
  | S n', String _ s' => drop n' s'
  | _, _ => s
  end.

(** The text before the first [/], and the text from it on. *)
Fixpoint authority (s : string) : string * string :=
  match s with
  | EmptyString => (EmptyString, EmptyString)
  | String c s' =>
      if Ascii.eqb c slash then (EmptyString, s)
      else let (a, p) := authority s' in (String c a, p)
  end.

Definition parse (s : string) : option Url :=
  if startswith "http://" s then
    let (a, p) := authority (drop 7 s) in
    Some {| scheme := "http"; netloc := a; path := p |}
  else if startswith "https://" s then
    let (a, p) := authority (drop 8 s) in
    Some {| scheme := "https"; netloc := a; path := p |}
  else Some {| scheme := ""; netloc := ""; path := s |}.

End Ascii_builtins.

#[export] Instance ascii_builtins : Builtins :=
  {| int_of_str := Ascii_builtins.dec_int;
     str_upper := Ascii_builtins.upper;
     str_of := Ascii_builtins.str;
     urlparse := Ascii_builtins.parse |}.

(** A cluster that holds the resources of one namespace by kind and name
    and answers as the API server does: 404 for what it does not hold,
    409 for a create of what it holds. *)
Module Ideal_cluster.

Definition Kind_eqb (a b : Kind) : bool :=
  match a, b with
  | KConfigMap, KConfigMap | KPVC, KPVC | KService, KService
  | KDeployment, KDeployment | KIngress, KIngress => true
  | _, _ => false
  end.

Definition target_eqb (a b : Kind * string) : bool :=
  Kind_eqb (fst a) (fst b) && String.eqb (snd a) (snd b).

Definition holds (s : list (Kind * string)) (t : Kind * string) : bool :=
  existsb (target_eqb t) s.

Definition answer (s : list (Kind * string)) (c : Call)
  : Response * list (Kind * string) :=
  match c with
  | read k name _ =>
      if holds s (k, name) then (Success, s) else (Failure 404 "Not Found", s)
  | patch k name _ _ =>
      if holds s (k, name) then (Success, s) else (Failure 404 "Not Found", s)
  | create k _ body =>
      if holds s (k, metadata_name body) then (Failure 409 "Conflict", s)
      else (Success, s ++ [(k, metadata_name body)])
  | delete k name _ =>
      if holds s (k, name)
      then (Success, filter (fun t => negb (target_eqb (k, name) t)) s)
      else (Failure 404 "Not Found", s)
  end.

End Ideal_cluster.

#[export] Instance ideal_cluster : Cluster (list (Kind * string)) :=
  {| respond := Ideal_cluster.answer;
     api_str := fun status reason => ("(" ++ str_Z status ++ ") Reason: " ++ reason)%string |}.

(** * Specification-side definitions

    What the properties below compare the code with: the plans, call
    logs and name lists of the specification, its statements in its own
    words, and the models the examples run on. *)

Definition spec_with_ports (ps : option (list pyval)) : Spec :=
  {| image := "img"; ports := ps; expose := None; environment := None;
     envFrom := None; volumes := None; volumesFrom := None;
     networks := None; env_file := None |}.

Definition bare_app (c : Spec) : AppSpec :=
  {| app := c; sidecars := None; deploy := None |}.

Definition plain_app : AppSpec := bare_app (spec_with_ports None).

Definition exposing (entries : list pyval) : Spec :=
  {| image := "img"; ports := None; expose := Some entries; environment := None;
     envFrom := None; volumes := None; volumesFrom := None;
     networks := None; env_file := None |}.

Definition sample_pvc : Manifest :=
  MPVC {| pvc_name := "data"; pvc_namespace := "default"; pvc_storage := VStr "1Gi" |}.

Definition sample_ingress : Manifest :=
  MIngress {| ing_name := "whoami"; ing_namespace := "default";
              ing_rules := []; ing_className := Some (VStr "traefik") |}.

Definition sample_configmap : Manifest :=
  MConfigMap {| cmap_name := "config-app"; cmap_namespace := "default";
                cmap_data := VDict [("k", VStr "v")] |}.

Section Delete_specification.
Context {St : Type} `{Cluster St}.
Import ResourceManager.

(** The kinds in the order the specification gives for deletion, each
    with the API family its resources are deleted through. *)
Definition delete_order : list (string * Kind) :=
  [("ingress", KIngress); ("deployments", KDeployment); ("services", KService);
   ("configmaps", KConfigMap); ("pvcs", KPVC)].

(** The deletes a bundle asks for, as the specification words it: kind by
    kind in that order, each kind's manifests in their own order, every
    one through the API family of its kind. *)
Definition delete_plan (resources : Bundle) : list (string * Kind * Manifest) :=
  flat_map (fun tk => map (pair tk) (or_empty (get (fst tk) resources))) delete_order.

(** Placing the planned deletes in order, as the specification words it:
    every planned delete is placed, by name and namespace; a success or a
    404 goes on to the next delete; any other failure stops the run
    there with the wrapped error, the cluster staying as the calls so
    far left it. *)
Fixpoint delete_in_order (ns : string) (plan : list (string * Kind * Manifest))
    (s : St) (log : list Call) : result unit * World :=
  match plan with
  | [] => (Ok tt, {| cluster := s; calls := log |})
  | (resource_type, k, m) :: plan' =>
      let c := delete k (metadata_name m) ns in
      match respond s c with
      | (Success, s') => delete_in_order ns plan' s' (log ++ [c])
      | (Failure status reason, s') =>
          if Z.eqb status 404 then delete_in_order ns plan' s' (log ++ [c])
          else (Raise (Exception
                         ("Failed to delete " ++ resource_type ++ " '"
                          ++ metadata_name m ++ "': " ++ api_str status reason)),
                {| cluster := s'; calls := log ++ [c] |})
      end
  end.

End Delete_specification.

(** Every planned delete goes through the API family the code picks for
    its kind tag: checked tag by tag on the code's branches. *)
Ltac planned_kinds :=
  unfold delete_plan, delete_order; cbn [flat_map fst]; rewrite !Forall_app;
  repeat split;
  try (apply Forall_forall; intros ? I; apply in_map_iff in I;
       destruct I as [? [<- _]]; reflexivity);
  constructor.

Section Apply_specification.
Import ResourceManager Ideal_cluster.

(** The resources of a bundle in the order [apply_resources] visits them,
    each with the API family of its kind tag. *)
Definition apply_plan (resources : Bundle) : list (Kind * Manifest) :=
  flat_map (fun kv =>
              match kind_of (fst kv) with
              | Some k => map (pair k) (snd kv)
              | None => []
              end) resources.

Definition target (km : Kind * Manifest) : Kind * string :=
  (fst km, metadata_name (snd km)).

(** Every manifest of the bundle, whatever its tag. *)
Definition manifests (resources : Bundle) : list Manifest := flat_map snd resources.

(** The bodies handed to [create], and to [patch], in a call log. *)
Definition created (log : list Call) : list Manifest :=
  flat_map (fun c => match c with create _ _ body => [body] | _ => [] end) log.

Definition patched (log : list Call) : list Manifest :=
  flat_map (fun c => match c with patch _ _ _ body => [body] | _ => [] end) log.

(** The round trip as the specification words it: on a cluster holding
    none of the targets, one create per manifest and no patch; applied
    again to the cluster this leaves, one patch per manifest and no
    create. *)
Definition round_trip (ns : string) (resources : Bundle) (s : list (Kind * string))
  : Prop :=
  let (r1, w1) := apply_resources ns resources {| cluster := s; calls := [] |} in
  let (r2, w2) := apply_resources ns resources {| cluster := cluster w1; calls := [] |} in
  r1 = Ok tt /\ created (calls w1) = manifests resources /\ patched (calls w1) = []
  /\ r2 = Ok tt /\ patched (calls w2) = manifests resources /\ created (calls w2) = [].

End Apply_specification.

Definition twice_named : Bundle := [("configmaps", [sample_configmap; sample_configmap])].

Section Volume_specification.
Import VolumeGenerator.

(** The name both generators give the positional entry [i] of owner [N]. *)
Definition volume_name (N : string) (i : nat) : string :=
  "vol-" ++ N ++ "-" ++ str_nat i.

(** Every volume before de-duplication, main container first. *)
Definition all_volumes (name : string) (config : AppSpec) : list Volume :=
  _generate_container_volumes name (app config)
  ++ flat_map (fun sc => _generate_container_volumes (name ++ "-" ++ fst sc)
                           (inherit_volumes (app config) (snd sc)))
       (or_empty (sidecars config)).

(** The claim of one definition per inherited entry, as the specification
    words it. *)
Definition one_definition_per_entry (name : string) (config : AppSpec) : Prop :=
  length (fst (generate_volumes name config))
  = length (or_empty (volumes (app config))).

(** The app dictionary after [generate_volumes]: each sidecar that has no
    [volumes] carries the app's. *)
Definition with_inherited_volumes (config : AppSpec) : AppSpec :=
  {| app := app config;
        sidecars := option_map
                      (map (fun sc => (fst sc, inherit_volumes (app config) (snd sc))))
                      (sidecars config);
        deploy := deploy config |}.

End Volume_specification.

Definition inheriting_app : AppSpec :=
  {| app := {| image := "img"; ports := None; expose := None; environment := None;
               envFrom := None; volumes := Some [VStr "/host/path:/container/path"];
               volumesFrom := None; networks := None; env_file := None |};
     sidecars := Some [("metrics", spec_with_ports None)];
     deploy := None |}.

Definition inheriting_model : ComposeModel :=
  {| apps := [("whoami", inheriting_app)];
     cm_volumes := []; configs := []; secrets := [] |}.

(** [resources.get(kind, [])] on a bundle. *)
Definition of_kind (kind : string) (b : Bundle) : list Manifest := or_empty (get kind b).

(** The inline ConfigMaps as the specification words them: one per
    non-external entry of [configs], named "config-{name}", data copied
    verbatim. *)
Definition inline_configs (ns : string) (cfgs : list (string * ConfigSpec))
  : list ConfigMap :=
  map (fun nc => {| cmap_name := "config-" ++ fst nc;
                    cmap_namespace := ns;
                    cmap_data := match cfg_data (snd nc) with
                                 | Some d => d
                                 | None => VDict []
                                 end |})
    (filter (fun nc => negb match cfg_external (snd nc) with
                            | Some b => b
                            | None => false
                            end) cfgs).

(** The claim of one ConfigMap per non-external entry in the bundle, as
    the specification words it. *)
Definition one_configmap_per_config (ns : string) (compose : ComposeModel) (b : Bundle)
  : Prop :=
  of_kind "configmaps" b = map MConfigMap (inline_configs ns (configs compose)).

Definition two_apps : ComposeModel :=
  {| apps := [("web", plain_app); ("worker", plain_app)];
     cm_volumes := [];
     configs := [("settings", {| cfg_external := None;
                                 cfg_data := Some (VDict [("k", VStr "v")]) |})];
     secrets := [] |}.

Section Ingress_specification.
Context `{Builtins}.
Import IngressGenerator.

(** The [ingressClassName] values of the mapping-form entries, in the
    order the entries and their items are visited. *)
Definition item_class_names (items : list (string * pyval)) : list pyval :=
  flat_map (fun kv => match snd kv with
                      | VDict settings =>
                          match get "ingressClassName" settings with
                          | Some c => [c]
                          | None => []
                          end
                      | _ => []
                      end) items.

Definition class_names (entries : list pyval) : list pyval :=
  flat_map (fun entry => match entry with
                         | VDict items => item_class_names items
                         | _ => []
                         end) entries.

(** The last value seen, "traefik" when none is. *)
Definition last_class_name (entries : list pyval) : pyval :=
  last (class_names entries) (VStr "traefik").

(** The claim that the Ingress carries the last value seen, as the
    specification words it. *)
Definition class_is_last_seen (ns name : string) (config : Spec) : Prop :=
  forall entries i,
    expose config = Some entries ->
    generate ns name config = Some i ->
    ing_className i = Some (last_class_name entries).

End Ingress_specification.

Definition three_entries : Spec :=
  exposing [VDict [("a.example.com", VDict [("ingressClassName", VStr "nginx")])];
            VStr "http://b.example.com/app";
            VDict [("c.example.com", VDict [("ingressClassName", VStr "haproxy")])]].

(** Entries none of which is usable: a mapping whose value is not a
    mapping, a string that is no URL, an empty mapping, a number. *)
Definition unusable_entries : Spec :=
  exposing [VDict [("example.com", VStr "oops")]; VStr "example.com"; VDict []; VInt 80].

Section Validation_specification.
Import ComposeValidator.

Inductive RefKind : Type := RConfig | RSecret.

(** A name an app or a sidecar refers to through [volumesFrom] or
    [envFrom]. *)
Record Reference : Type := {
  ref_app : string;
  ref_sidecar : option string;
  ref_kind : RefKind;
  ref_name : string
}.

(** The references of one container dictionary, in the order the
    validator visits them: [volumesFrom], then [envFrom]. *)
Definition spec_references (app_name : string) (sidecar_name : option string)
    (config : Spec) : list Reference :=
  flat_map (fun volume =>
              match vf_config volume with
              | Some n => [ {| ref_app := app_name; ref_sidecar := sidecar_name;
                               ref_kind := RConfig; ref_name := n |} ]
              | None => []
              end) (or_empty (volumesFrom config))
  ++ flat_map (fun env =>
                 match env with
                 | EnvConfig n => [ {| ref_app := app_name; ref_sidecar := sidecar_name;
                                       ref_kind := RConfig; ref_name := n |} ]
                 | EnvSecret n => [ {| ref_app := app_name; ref_sidecar := sidecar_name;
                                       ref_kind := RSecret; ref_name := n |} ]
                 | EnvOther => []
                 end) (or_empty (envFrom config)).

(** The references of a model: app by app, the app's own and then those
    of its sidecars in order. *)
Definition references (compose_data : ComposeModel) : list Reference :=
  flat_map (fun na =>
              spec_references (fst na) None (app (snd na))
              ++ flat_map (fun sc => spec_references (fst na) (Some (fst sc)) (snd sc))
                   (or_empty (sidecars (snd na))))
    (apps compose_data).

(** What is wrong with a reference, as the specification words it: a
    config absent from [configs], or marked external there and absent
    from the external configs, or a secret absent from the external
    secrets; with the failure message of each case. *)
Definition fault (cfgs : list (string * ConfigSpec))
    (external_configs external_secrets : list string) (r : Reference) : option string :=
  match ref_kind r with
  | RConfig =>
      match get (ref_name r) cfgs with
      | None => Some (missing_config_msg (ref_sidecar r) (ref_app r) (ref_name r))
      | Some c =>
          if match cfg_external c with Some b => b | None => false end
             && negb (mem (ref_name r) external_configs)
          then Some (external_config_msg (ref_sidecar r) (ref_app r) (ref_name r))
          else None
      end
  | RSecret =>
      if mem (ref_name r) external_secrets then None
      else Some match ref_sidecar r with
                | Some sc => sidecar_secret_msg sc (ref_app r) (ref_name r)
                | None => app_secret_msg (ref_app r) (ref_name r)
                end
  end.

(** The fault the validator acts on: that of a reference with a
    non-empty name. *)
Definition violation (cfgs : list (string * ConfigSpec))
    (external_configs external_secrets : list string) (r : Reference) : option string :=
  if named (ref_name r) then fault cfgs external_configs external_secrets r else None.

(** The first violation in iteration order. *)
Fixpoint first_violation (f : Reference -> option string) (rs : list Reference)
  : option string :=
  match rs with
  | [] => None
  | r :: rs' => match f r with
                | Some msg => Some msg
                | None => first_violation f rs'
                end
  end.

Definition outcome (v : option string) : result unit :=
  match v with
  | Some msg => Raise (ValueError msg)
  | None => Ok tt
  end.

(** The claim as the specification words it: validation fails exactly
    when some reference is at fault. *)
Definition fails_iff_fault (compose_data : ComposeModel)
    (external_configs external_secrets : list string) : Prop :=
  (exists msg, _validate_external_resources compose_data external_configs external_secrets
               = Raise (ValueError msg))
  <-> exists r, In r (references compose_data)
                /\ fault (configs compose_data) external_configs external_secrets r <> None.

End Validation_specification.

Definition unnamed_secret : ComposeModel :=
  {| apps := [("web",
               bare_app {| image := "img"; ports := None; expose := None;
                           environment := None; envFrom := Some [EnvSecret ""];
                           volumes := None; volumesFrom := None;
                           networks := None; env_file := None |})];
     cm_volumes := []; configs := []; secrets := [] |}.

(** The fixture of [tests/test_generators.py]. *)
Definition fixture_app_config : AppSpec :=
  {| app := {| image := "traefik/whoami:latest";
               ports := Some [VStr "8080:80"];
               expose := Some [VDict [("magic-127-0-0-1.nip.io",
                                       VDict [("port", VInt 80);
                                              ("protocol", VStr "http");
                                              ("ingressClassName", VStr "traefik")])]];
               environment := None; envFrom := None; volumes := None;
               volumesFrom := None; networks := None; env_file := None |};
     sidecars :=
       Some [("metrics",
              {| image := "prom/node-exporter:latest";
                 ports := Some [VStr "9100:9100"];
                 expose := None; environment := None; envFrom := None;
                 volumes := None; volumesFrom := None;
                 networks := None; env_file := None |});
             ("logger",
              {| image := "fluent/fluentd:v1.16";
                 ports := None; expose := None;
                 environment := Some [("FLUENTD_CONF", VStr "custom.conf")];
                 envFrom := None;
                 volumes := Some [VStr "/var/log:/fluentd/log"];
                 volumesFrom := Some [ {| vf_config := Some "fluentd-config";
                                          vf_mountPath := None |} ];
                 networks := None; env_file := None |})];
     deploy := None |}.

(** The fixture as [test_deployment_with_volume_mounts] prepares it: the
    app declares [volumes], no sidecar does. *)
Definition fixture_with_volumes : AppSpec :=
  {| app := VolumeGenerator.set_volumes (Some [VStr "/host/path:/container/path"])
              (app fixture_app_config);
     sidecars := option_map
                   (map (fun sc => (fst sc, VolumeGenerator.set_volumes None (snd sc))))
                   (sidecars fixture_app_config);
     deploy := None |}.

(** The app of [test_service_types] and of the specification's example. *)
Definition service_types_config : AppSpec :=
  bare_app {| image := "traefik/whoami:latest";
              ports := Some [VStr "8080:80"; VStr "8443:443"];
              expose := Some [VDict [("example.com", VDict [("port", VInt 80)])]];
              environment := None; envFrom := None; volumes := None;
              volumesFrom := None; networks := None; env_file := None |}.

(** A cluster that refuses every delete of a Deployment with 403 and
    otherwise answers as [ideal_cluster] does. *)
Definition forbidding_answer (s : list (Kind * string)) (c : Call)
  : Response * list (Kind * string) :=
  match c with
  | delete KDeployment _ _ => (Failure 403 "Forbidden", s)
  | _ => Ideal_cluster.answer s c
  end.

Definition forbidding_cluster : Cluster (list (Kind * string)) :=
  {| respond := forbidding_answer;
     api_str := fun status reason => ("(" ++ str_Z status ++ ") Reason: " ++ reason)%string |}.

Definition sample_deployment : Manifest :=
  MDeployment {| dep_name := "whoami"; dep_namespace := "default";
                 dep_replicas := VInt 1; dep_matchLabels := "whoami";
                 dep_podLabels := "whoami"; dep_containers := []; dep_volumes := [] |}.

Definition sample_service : Manifest :=
  MService (ServiceGenerator.ingress_service "default" "whoami").

(** ** Further instances and sample inputs *)

(** ASCII readings of [str.strip] and of base64 over the bytes of the
    string. *)
Module Ascii_text.

Definition is_space (c : ascii) : bool :=
  let n := nat_of_ascii c in
  ((9 <=? n)%nat && (n <=? 13)%nat) || ((28 <=? n)%nat && (n <=? 32)%nat).

Fixpoint lstrip (s : string) : string :=
  match s with
  | String c s' => if is_space c then lstrip s' else s
  | EmptyString => EmptyString
  end.

Fixpoint rstrip_space (s : string) : string :=
  match s with
  | EmptyString => EmptyString
  | String c s' =>
      match rstrip_space s' with
      | EmptyString => if is_space c then EmptyString else String c EmptyString
      | r => String c r
      end
  end.

Definition strip_space (s : string) : string := rstrip_space (lstrip s).

Definition alphabet : string :=
  "ABCDEFGHIJKLMNOPQRSTUVWXYZabcdefghijklmnopqrstuvwxyz0123456789+/".

Definition digit (n : nat) : ascii :=
  match String.get n alphabet with
  | Some c => c
  | None => "="%char
  end.

Fixpoint encode_bytes (bs : list nat) : string :=
  match bs with
  | [] => EmptyString
  | [a] =>
      String (digit (a / 4))
        (String (digit ((a mod 4) * 16)) "==")
  | [a; b] =>
      String (digit (a / 4))
        (String (digit ((a mod 4) * 16 + b / 16))
           (String (digit ((b mod 16) * 4)) "="))
  | a :: b :: c :: bs' =>
      String (digit (a / 4))
        (String (digit ((a mod 4) * 16 + b / 16))
           (String (digit ((b mod 16) * 4 + c / 64))
              (String (digit (c mod 64)) (encode_bytes bs'))))
  end.

Definition b64 (s : string) : string :=
  encode_bytes (map nat_of_ascii (list_ascii_of_string s)).

End Ascii_text.

#[export] Instance ascii_text : Text :=
  {| strip := Ascii_text.strip_space; b64encode := Ascii_text.b64 |}.

(** A cluster whose reads are refused with 500. *)
Definition failing_reads : Cluster (list (Kind * string)) :=
  {| respond := fun s c => match c with
                           | read _ _ _ => (Failure 500 "Internal Server Error", s)
                           | _ => Ideal_cluster.answer s c
                           end;
     api_str := fun status reason => ("(" ++ str_Z status ++ ") Reason: " ++ reason)%string |}.

(** A cluster in which what was read is gone by the time it is patched:
    reads succeed, patches answer 404, creates succeed. *)
Definition vanishing : Cluster (list (Kind * string)) :=
  {| respond := fun s c => match c with
                           | read _ _ _ => (Success, s)
                           | patch _ _ _ _ => (Failure 404 "Not Found", s)
                           | create k _ body => (Success, s ++ [(k, metadata_name body)])
                           | delete _ _ _ => (Success, s)
                           end;
     api_str := fun status reason => ("(" ++ str_Z status ++ ") Reason: " ++ reason)%string |}.

(** An API server that holds the ConfigMap "shared" and no Secret. *)
Definition holds_shared : CoreV1 :=
  fun k name _ =>
    match k with
    | ExtConfigMap => if String.eqb name "shared" then Success
                      else Failure 404 "Not Found"
    | ExtSecret => Failure 404 "Not Found"
    end.

(** [isinstance(v, dict)] *)
Definition is_dict (v : pyval) : bool :=
  match v with
  | VDict _ => true
  | _ => false
  end.

(** The tags [apply_resources] and [delete_resources] act on. *)
Definition known (kv : string * list Manifest) : bool :=
  match ResourceManager.kind_of (fst kv) with
  | Some _ => true
  | None => false
  end.

(** The kind/name pair a planned delete aims at. *)
Definition delete_target (tkm : string * Kind * Manifest) : Kind * string :=
  (snd (fst tkm), metadata_name (snd tkm)).

(** The delete call of a planned delete. *)
Definition delete_call (ns : string) (tkm : string * Kind * Manifest) : Call :=
  delete (snd (fst tkm)) (metadata_name (snd tkm)) ns.


(** A model whose app refers to a declared external config through
    [volumesFrom], to another through [envFrom], and to a declared
    external secret. *)
Definition referring_model : ComposeModel :=
  {| apps := [("web",
               bare_app {| image := "img"; ports := None; expose := None;
                           environment := None;
                           envFrom := Some [EnvConfig "settings"; EnvSecret "token"];
                           volumes := None;
                           volumesFrom := Some [ {| vf_config := Some "shared";
                                                    vf_mountPath := None |} ];
                           networks := None; env_file := None |})];
     cm_volumes := [("data", {| size := None |})];
     configs := [("shared", {| cfg_external := Some true; cfg_data := None |});
                 ("settings", {| cfg_external := Some true; cfg_data := None |})];
     secrets := [("token", {| sec_external := Some true |})] |}.


(** The lines of an env file that carry an assignment: stripped, not
    blank, not a comment. *)
Definition effective_lines `{Text} (lines : list string) : list string :=
  filter (fun line => negb (String.eqb line "") && negb (startswith "#" line))
    (map strip lines).

(** A data dictionary with every value encoded. *)
Definition encoded (encode : string -> string) (data : list (string * string))
  : list (string * string) :=
  map (fun kv => (fst kv, encode (snd kv))) data.

(** The same for the result of a call. *)
Definition encoded_result (encode : string -> string)
    (r : result (list (string * string))) : result (list (string * string)) :=
  match r with
  | Ok data => Ok (encoded encode data)
  | Raise e => Raise e
  end.

(** The rules of the Ingress, none when no Ingress is generated. *)
Definition ing_rules_of (i : option Ingress) : list IngressRule :=
  match i with
  | Some ing => ing_rules ing
  | None => []
  end.

(** The constructor a kind tag goes with. *)
Definition tagged (kv : string * list Manifest) : Prop :=
  Forall (fun m => match ResourceManager.kind_of (fst kv), m with
                   | Some KConfigMap, MConfigMap _
                   | Some KPVC, MPVC _
                   | Some KDeployment, MDeployment _
                   | Some KService, MService _
                   | Some KIngress, MIngress _ => True
                   | _, _ => False
                   end) (snd kv).

(** An app without ports whose sidecar declares one. *)
Definition sidecar_with_port : ComposeModel :=
  {| apps := [("worker",
               {| app := spec_with_ports None;
                  sidecars := Some [("metrics", spec_with_ports (Some [VStr "9100:9100"]))];
                  deploy := None |})];
     cm_volumes := []; configs := []; secrets := [] |}.

(** * Properties *)

(** ** Service generation *)

Section Service_properties.
Context `{Builtins}.
Import BaseGenerator ServiceGenerator.

Lemma bind_ok {A B : Type} (r : result A) (k : A -> result B) (b : B) :
  bind r k = Ok b -> exists a, r = Ok a /\ k a = Ok b.
Proof.
  destruct r as [a|e]; simpl; intros E; [exists a; auto | discriminate].
Qed.

Lemma index_ok {A : Type} (xs : list A) (i : nat) (x : A) :
  index xs i = Ok x <-> nth_error xs i = Some x.
Proof.
  unfold index. destruct (nth_error xs i); split; intros E; congruence.
Qed.

Lemma index_out_of_range {A : Type} (xs : list A) (i : nat) :
  (length xs <= i)%nat -> index xs i = Raise IndexError.
Proof.
  intros L. unfold index.
  apply nth_error_None in L. now rewrite L.
Qed.

(** What [generate] returns when it returns: the default Service with the
    first converted port, then the sidecar Services, then the [-lb]
    Service with the second converted port exactly when two or more raw
    entries were declared, then the [-ingress] Service. *)
Lemma generate_returns (ns name : string) (config : AppSpec) (p : pyval)
    (ps : list pyval) (services : list Service) :
  ports (app config) = Some (p :: ps) ->
  generate ns name config = Ok services ->
  exists first scs lb,
    nth_error (_convert_service_ports (p :: ps)) 0 = Some first
    /\ sidecar_services ns name (or_empty (sidecars config)) = Ok scs
    /\ services = default_service ns name first :: scs ++ lb
                  ++ (if nonempty (expose (app config))
                      then [ingress_service ns name] else [])
    /\ match ps with
       | [] => lb = []
       | _ :: _ => exists second,
           nth_error (_convert_service_ports (p :: ps)) 1 = Some second
           /\ lb = [lb_service ns name second]
       end.
Proof.
  intros P G. unfold generate in G. rewrite P in G.
  cbn [nonempty or_empty andb] in G.
  apply bind_ok in G. destruct G as [dflt [D G]].
  apply bind_ok in D. destruct D as [first [F D]]. injection D as <-.
  apply bind_ok in G. destruct G as [scs [S G]].
  apply bind_ok in G. destruct G as [lb [L G]]. injection G as <-.
  exists first, scs, lb. apply index_ok in F.
  repeat split; auto.
  destruct ps as [|q ps]; cbn in L.
  - now injection L as <-.
  - apply bind_ok in L. destruct L as [second [S2 L]]. injection L as <-.
    exists second. apply index_ok in S2. auto.
Qed.

(** Conversely [generate] returns as soon as enough entries convert and
    the sidecar loop returns. *)
Lemma generate_total (ns name : string) (config : AppSpec) (p : pyval)
    (ps : list pyval) (scs : list Service) :
  ports (app config) = Some (p :: ps) ->
  (Nat.min 2 (length (p :: ps))
     <= length (_convert_service_ports (p :: ps)))%nat ->
  sidecar_services ns name (or_empty (sidecars config)) = Ok scs ->
  exists services, generate ns name config = Ok services.
Proof.
  intros P L S. unfold generate. rewrite P.
  cbn [nonempty or_empty andb].
  destruct (_convert_service_ports (p :: ps)) as [|c0 cs] eqn:C.
  { cbn in L. destruct ps; cbn in L; lia. }
  cbn [index nth_error bind]. rewrite S. cbn [bind].
  destruct ps as [|q ps]; cbn [length Nat.ltb Nat.leb].
  - eexists. reflexivity.
  - destruct cs as [|c1 cs]; [cbn in L; lia|].
    cbn. eexists. reflexivity.
Qed.

(** C1, at the input [ports: ["80"]] (a container port without a published
    port): no entry converts, and [generate] raises instead of returning
    a default Service. *)
Theorem C1_generate_raises_on_ports_80 :
  generate "default" "whoami" (bare_app (spec_with_ports (Some [VStr "80"])))
  = Raise IndexError.
Proof. reflexivity. Qed.

(** C10: with a non-empty [ports] list, [generate] raises [IndexError]
    when no entry converts (position 0 of an empty list), and when two or
    more raw entries are declared but fewer than two convert (position 1,
    reached when the sidecar loop returns); in neither case does it
    return. *)
Theorem C10_generate_raises (ns name : string) (config : AppSpec) (p : pyval)
    (ps : list pyval) :
  ports (app config) = Some (p :: ps) ->
  (_convert_service_ports (p :: ps) = [] ->
     generate ns name config = Raise IndexError)
  /\ (ps <> [] -> (length (_convert_service_ports (p :: ps)) < 2)%nat ->
        (forall scs, sidecar_services ns name (or_empty (sidecars config)) = Ok scs ->
           generate ns name config = Raise IndexError)
        /\ (forall services, generate ns name config <> Ok services)).
Proof.
  intros P. split.
  - intros C. unfold generate. rewrite P. cbn [nonempty or_empty].
    rewrite C. reflexivity.
  - intros NE L. split.
    + intros scs S. unfold generate. rewrite P. cbn [nonempty or_empty andb].
      destruct (_convert_service_ports (p :: ps)) as [|c0 cs] eqn:C; [reflexivity|].
      cbn [index nth_error bind]. rewrite S. cbn [bind].
      destruct ps as [|q ps]; [congruence|]. cbn [length Nat.ltb Nat.leb].
      destruct cs as [|c1 cs]; [reflexivity|]. cbn in L. lia.
    + intros services G.
      destruct (generate_returns ns name config P G) as [first [scs [lb [_ [_ [_ M]]]]]].
      destruct ps as [|q ps]; [congruence|].
      destruct M as [second [S2 _]].
      assert (1 < length (_convert_service_ports (p :: q :: ps)))%nat.
      { apply nth_error_Some. rewrite S2. discriminate. }
      lia.
Qed.

End Service_properties.

Lemma C10_witness :
  ServiceGenerator.generate "default" "whoami"
    (bare_app (spec_with_ports (Some [VStr "80"]))) = Raise IndexError
  /\ ServiceGenerator.generate "default" "whoami"
       (bare_app (spec_with_ports (Some [VStr "8080:80"; VStr "443"]))) = Raise IndexError.
Proof.
  split.
  - apply (C10_generate_raises "default" "whoami"
             (bare_app (spec_with_ports (Some [VStr "80"])))
             (p := VStr "80") (ps := []) eq_refl).
    reflexivity.
  - apply (C10_generate_raises "default" "whoami"
             (bare_app (spec_with_ports (Some [VStr "8080:80"; VStr "443"])))
             (p := VStr "8080:80") (ps := [VStr "443"]) eq_refl)
      with (scs := []).
    + discriminate.
    + vm_compute. lia.
    + reflexivity.
Defined.

(** ** Reconciliation: delete *)

Section Delete_properties.
Context {St : Type} `{Cluster St}.
Import ResourceManager.
Local Abbreviation M := (@ResourceManager.M St).
Local Abbreviation World := (@ResourceManager.World St).

Lemma for_app {A : Type} (xs ys : list A) (body : A -> M unit) (w : World) :
  for_ (xs ++ ys) body w = bindM (for_ xs body) (fun _ => for_ ys body) w.
Proof.
  revert w. induction xs as [|x xs IH]; intros w; simpl.
  - reflexivity.
  - unfold bindM. destruct (body x w) as [[[]|e] w']; [|reflexivity].
    rewrite IH. reflexivity.
Qed.

Lemma for_flat_map {A B : Type} (f : A -> list B) (xs : list A)
    (body : B -> M unit) (w : World) :
  for_ xs (fun x => for_ (f x) body) w = for_ (flat_map f xs) body w.
Proof.
  revert w. induction xs as [|x xs IH]; intros w; simpl.
  - reflexivity.
  - rewrite for_app. unfold bindM.
    destruct (for_ (f x) body w) as [[[]|e] w']; [apply IH | reflexivity].
Qed.

Lemma delete_resources_flat (ns : string) (resources : Bundle) (w : World) :
  delete_resources ns resources w
  = for_ (delete_plan resources)
      (fun tkm => delete_resource ns (fst (fst tkm)) (snd tkm)) w.
Proof.
  unfold delete_resources, delete_plan.
  change resource_types with (map fst delete_order).
  rewrite <- for_flat_map.
  generalize delete_order. intros tks. revert w.
  induction tks as [|[rt k] tks IH]; intros w0; [reflexivity|].
  cbn [for_ map fst]. unfold bindM.
  assert (E1 : forall l w1,
             for_ l (delete_resource ns rt) w1
             = for_ (map (pair (rt, k)) l)
                 (fun tkm => delete_resource ns (fst (fst tkm)) (snd tkm)) w1).
  { induction l as [|m l IHl]; intros w1; [reflexivity|].
    cbn [for_ map fst snd]. unfold bindM.
    destruct (delete_resource ns rt m w1) as [[[]|e] w2]; [apply IHl|reflexivity]. }
  destruct (get rt resources) as [l|]; cbn [or_empty].
  - rewrite E1.
    destruct (for_ (map (pair (rt, k)) l) _ w0) as [[[]|e] w2]; [apply IH|reflexivity].
  - cbn. apply IH.
Qed.

Lemma for_delete_in_order (ns : string) (plan : list (string * Kind * Manifest))
    (w : World) :
  Forall (fun tkm => kind_of (fst (fst tkm)) = Some (snd (fst tkm))) plan ->
  for_ plan (fun tkm => delete_resource ns (fst (fst tkm)) (snd tkm)) w
  = delete_in_order ns plan (cluster w) (calls w).
Proof.
  intros F. revert w. induction F as [|[[rt k] m] plan K F IH]; intros w.
  - destruct w. reflexivity.
  - cbn [for_ delete_in_order fst snd] in *. unfold bindM at 1.
    unfold delete_resource. rewrite K.
    unfold try_api, api, bindM, call.
    destruct (respond (cluster w) (delete k (metadata_name m) ns)) as [[|status reason] s'].
    + cbn. rewrite IH. reflexivity.
    + cbn. destruct (Z.eqb status 404); cbn.
      * rewrite IH. reflexivity.
      * reflexivity.
Qed.

Lemma get_Permutation {V : Type} (k : string) (d d' : list (string * V)) :
  NoDup (keys d) -> Permutation d d' -> get k d = get k d'.
Proof.
  intros ND P. induction P as [|[k1 v1] l l' P IH|[k1 v1] [k2 v2] l|l l' l'' P1 IH1 P2 IH2].
  - reflexivity.
  - cbn. destruct (String.eqb k k1); [reflexivity|].
    apply IH. now inversion ND.
  - cbn. destruct (String.eqb_spec k k2) as [E2|N2];
      destruct (String.eqb_spec k k1) as [E1|N1]; try reflexivity.
    exfalso. subst k1 k2. inversion ND as [|? ? NI _]. apply NI. now left.
  - rewrite IH1 by assumption. apply IH2.
    unfold keys in *. eapply Permutation_NoDup; [|exact ND].
    now apply Permutation_map.
Qed.

(** C3: [delete_resources] places one delete call for every manifest the
    bundle lists under ingress, deployments, services, configmaps and
    pvcs, kind by kind in that order and each through the API family of
    its kind, whatever the order of the bundle's keys; a 404 answer is
    passed over, any other failure is raised wrapped with kind and name
    and ends the run with the calls placed so far and the cluster as
    they left it. *)
Theorem C3_delete_resources (ns : string) (resources resources' : Bundle) (w : World) :
  NoDup (keys resources) ->
  Permutation resources resources' ->
  delete_resources ns resources w
  = delete_in_order ns (delete_plan resources) (cluster w) (calls w)
  /\ delete_resources ns resources' w = delete_resources ns resources w.
Proof.
  intros ND P. split.
  - rewrite delete_resources_flat. apply for_delete_in_order. planned_kinds.
  - rewrite !delete_resources_flat. unfold delete_plan, delete_order.
    cbn [flat_map fst]. now rewrite !(get_Permutation _ ND P).
Qed.

End Delete_properties.

Lemma C3_witness :
  let resources := [("pvcs", [sample_pvc]); ("ingress", [sample_ingress])] in
  let resources' := [("ingress", [sample_ingress]); ("pvcs", [sample_pvc])] in
  let w := {| ResourceManager.cluster := [(KPVC, "data")];
              ResourceManager.calls := [] |} in
  ResourceManager.delete_resources "default" resources w
  = (Ok tt,
     {| ResourceManager.cluster := [];
        ResourceManager.calls := [delete KIngress "whoami" "default";
                                  delete KPVC "data" "default"] |})
  /\ ResourceManager.delete_resources "default" resources' w
     = ResourceManager.delete_resources "default" resources w.
Proof.
  cbv zeta.
  exact (C3_delete_resources "default"
           (resources := [("pvcs", [sample_pvc]); ("ingress", [sample_ingress])])
           (resources' := [("ingress", [sample_ingress]); ("pvcs", [sample_pvc])])
           {| ResourceManager.cluster := [(KPVC, "data")];
              ResourceManager.calls := [] |}
           ltac:(repeat constructor; simpl; intuition discriminate)
           (perm_swap _ _ _)).
Defined.

(** ** Reconciliation: apply *)

Section Apply_properties.
Import ResourceManager Ideal_cluster.
Local Abbreviation World := (@ResourceManager.World (list (Kind * string))).

Lemma Kind_eqb_eq (a b : Kind) : Kind_eqb a b = true <-> a = b.
Proof. destruct a, b; simpl; split; intros E; congruence. Qed.

Lemma target_eqb_eq (a b : Kind * string) : target_eqb a b = true <-> a = b.
Proof.
  destruct a as [ka na], b as [kb nb]. unfold target_eqb. cbn [fst snd].
  rewrite andb_true_iff, Kind_eqb_eq, String.eqb_eq.
  split; [intros [-> ->]; reflexivity | intros E; injection E; auto].
Qed.

Lemma holds_In (s : list (Kind * string)) (t : Kind * string) :
  holds s t = true <-> In t s.
Proof.
  unfold holds. rewrite existsb_exists. split.
  - intros [x [I E]]. apply target_eqb_eq in E. now subst.
  - intros I. exists t. split; [assumption | now apply target_eqb_eq].
Qed.

Lemma holds_absent (s : list (Kind * string)) (t : Kind * string) :
  holds s t = false <-> ~ In t s.
Proof.
  rewrite <- holds_In. destruct (holds s t); split; intros E; congruence.
Qed.

Lemma apply_resource_absent (ns rt : string) (k : Kind) (m : Manifest) (w : World) :
  kind_of rt = Some k ->
  ~ In (k, metadata_name m) (cluster w) ->
  apply_resource ns rt m w
  = (Ok tt, {| cluster := cluster w ++ [(k, metadata_name m)];
               calls := calls w ++ [read k (metadata_name m) ns; create k ns m] |}).
Proof.
  intros K A. apply holds_absent in A. pose proof A as A'. unfold holds in A'.
  unfold apply_resource, try_wrap, read_patch_or_create, try_api, api, bindM, call.
  rewrite K. cbn. repeat (first [rewrite A | rewrite A']; cbn).
  now rewrite <- app_assoc.
Qed.

Lemma apply_resource_present (ns rt : string) (k : Kind) (m : Manifest) (w : World) :
  kind_of rt = Some k ->
  In (k, metadata_name m) (cluster w) ->
  apply_resource ns rt m w
  = (Ok tt, {| cluster := cluster w;
               calls := calls w ++ [read k (metadata_name m) ns;
                                    patch k (metadata_name m) ns m] |}).
Proof.
  intros K A. apply holds_In in A. pose proof A as A'. unfold holds in A'.
  unfold apply_resource, try_wrap, read_patch_or_create, try_api, api, bindM, call.
  rewrite K. cbn. repeat (first [rewrite A | rewrite A']; cbn).
  now rewrite <- app_assoc.
Qed.

Lemma apply_resource_unknown (ns rt : string) (m : Manifest) (w : World) :
  kind_of rt = None -> apply_resource ns rt m w = (Ok tt, w).
Proof.
  intros K. unfold apply_resource, try_wrap. rewrite K. reflexivity.
Qed.

Lemma NoDup_app_disjoint {A : Type} (l1 l2 : list A) (a : A) :
  NoDup (l1 ++ l2) -> In a l1 -> In a l2 -> False.
Proof.
  induction l1 as [|x l1 IH]; intros ND I1 I2; [destruct I1|].
  cbn in ND. inversion ND as [|? ? NI ND']. subst.
  destruct I1 as [->|I1].
  - apply NI. apply in_or_app. now right.
  - now apply IH.
Qed.

Lemma for_apply_unknown (ns rt : string) (ms : list Manifest) (w : World) :
  kind_of rt = None -> for_ ms (apply_resource ns rt) w = (Ok tt, w).
Proof.
  intros K. revert w. induction ms as [|m ms IH]; intros w; [reflexivity|].
  cbn [for_]. unfold bindM. rewrite (@apply_resource_unknown ns rt m w K). apply IH.
Qed.

Lemma for_apply_absent (ns rt : string) (k : Kind) (ms : list Manifest) (w : World) :
  kind_of rt = Some k ->
  NoDup (map target (map (pair k) ms)) ->
  (forall t, In t (map target (map (pair k) ms)) -> ~ In t (cluster w)) ->
  for_ ms (apply_resource ns rt) w
  = (Ok tt,
     {| cluster := cluster w ++ map target (map (pair k) ms);
        calls := calls w
                 ++ flat_map (fun km => [read (fst km) (metadata_name (snd km)) ns;
                                         create (fst km) ns (snd km)])
                      (map (pair k) ms) |}).
Proof.
  intros K. revert w. induction ms as [|m ms IH]; intros w ND A.
  - cbn. rewrite !app_nil_r. now destruct w.
  - cbn [for_]. unfold bindM.
    rewrite (@apply_resource_absent ns rt k m w K) by (apply A; now left).
    cbn [map] in ND. inversion ND as [|? ? NI ND']. subst.
    rewrite IH; cbn [cluster calls].
    + cbn [map flat_map target fst snd]. now rewrite <- !app_assoc.
    + assumption.
    + intros t I I'. apply in_app_or in I'. destruct I' as [I'|[<-|[]]].
      * apply (A t); [now right | assumption].
      * apply NI. exact I.
Qed.

Lemma for_apply_present (ns rt : string) (k : Kind) (ms : list Manifest) (w : World) :
  kind_of rt = Some k ->
  (forall t, In t (map target (map (pair k) ms)) -> In t (cluster w)) ->
  for_ ms (apply_resource ns rt) w
  = (Ok tt,
     {| cluster := cluster w;
        calls := calls w
                 ++ flat_map (fun km => [read (fst km) (metadata_name (snd km)) ns;
                                         patch (fst km) (metadata_name (snd km)) ns (snd km)])
                      (map (pair k) ms) |}).
Proof.
  intros K. revert w. induction ms as [|m ms IH]; intros w A.
  - cbn. rewrite !app_nil_r. now destruct w.
  - cbn [for_]. unfold bindM.
    rewrite (@apply_resource_present ns rt k m w K) by (apply A; now left).
    rewrite IH; cbn [cluster calls].
    + cbn [map flat_map target fst snd]. now rewrite <- !app_assoc.
    + intros t I. apply A. now right.
Qed.

(** First pass: every target absent and no target named twice. *)
Lemma apply_resources_absent (ns : string) (resources : Bundle) (w : World) :
  NoDup (map target (apply_plan resources)) ->
  (forall t, In t (map target (apply_plan resources)) -> ~ In t (cluster w)) ->
  apply_resources ns resources w
  = (Ok tt,
     {| cluster := cluster w ++ map target (apply_plan resources);
        calls := calls w
                 ++ flat_map (fun km => [read (fst km) (metadata_name (snd km)) ns;
                                         create (fst km) ns (snd km)])
                      (apply_plan resources) |}).
Proof.
  unfold apply_resources. revert w.
  induction resources as [|[rt ms] resources IH]; intros w ND A.
  - cbn. rewrite !app_nil_r. now destruct w.
  - cbn [for_ fst snd]. unfold bindM.
    cbn [apply_plan flat_map fst snd] in ND, A |- *. fold (apply_plan resources) in *.
    rewrite map_app in ND, A.
    destruct (kind_of rt) as [k|] eqn:K.
    + rewrite (@for_apply_absent ns rt k ms w K).
      * rewrite IH; cbn [cluster calls].
        -- now rewrite map_app, flat_map_app, <- !app_assoc.
        -- eapply NoDup_app_remove_l. exact ND.
        -- intros t I I'. apply in_app_or in I'. destruct I' as [I'|I'].
           ++ apply (A t); [apply in_or_app; now right | assumption].
           ++ exact (NoDup_app_disjoint _ _ t ND I' I).
      * eapply NoDup_app_remove_r. exact ND.
      * intros t I. apply A. apply in_or_app. now left.
    + rewrite (@for_apply_unknown ns rt ms w K). cbn [app] in ND, A |- *.
      now apply IH.
Qed.

(** Second pass: every target present. *)
Lemma apply_resources_present (ns : string) (resources : Bundle) (w : World) :
  (forall t, In t (map target (apply_plan resources)) -> In t (cluster w)) ->
  apply_resources ns resources w
  = (Ok tt,
     {| cluster := cluster w;
        calls := calls w
                 ++ flat_map (fun km => [read (fst km) (metadata_name (snd km)) ns;
                                         patch (fst km) (metadata_name (snd km)) ns (snd km)])
                      (apply_plan resources) |}).
Proof.
  unfold apply_resources. revert w.
  induction resources as [|[rt ms] resources IH]; intros w A.
  - cbn. rewrite !app_nil_r. now destruct w.
  - cbn [for_ fst snd]. unfold bindM.
    cbn [apply_plan flat_map fst snd] in A |- *. fold (apply_plan resources) in *.
    rewrite map_app in A.
    destruct (kind_of rt) as [k|] eqn:K.
    + rewrite (@for_apply_present ns rt k ms w K).
      * rewrite IH; cbn [cluster calls].
        -- now rewrite flat_map_app, <- !app_assoc.
        -- intros t I. apply A. apply in_or_app. now right.
      * intros t I. apply A. apply in_or_app. now left.
    + rewrite (@for_apply_unknown ns rt ms w K). cbn [app] in A |- *.
      now apply IH.
Qed.

Lemma apply_plan_manifests (resources : Bundle) :
  Forall (fun kv => kind_of (fst kv) <> None) resources ->
  map snd (apply_plan resources) = manifests resources.
Proof.
  induction 1 as [|[rt ms] resources K _ IH]; [reflexivity|].
  cbn [apply_plan manifests flat_map fst snd] in *.
  fold (apply_plan resources). fold (manifests resources).
  rewrite map_app, IH. f_equal.
  destruct (kind_of rt) as [k|]; [|congruence].
  rewrite map_map. cbn. apply map_id.
Qed.

Lemma created_creates (ns : string) (plan : list (Kind * Manifest)) :
  created (flat_map (fun km => [read (fst km) (metadata_name (snd km)) ns;
                                create (fst km) ns (snd km)]) plan) = map snd plan
  /\ patched (flat_map (fun km => [read (fst km) (metadata_name (snd km)) ns;
                                   create (fst km) ns (snd km)]) plan) = [].
Proof.
  induction plan as [|km plan [IH1 IH2]]; [split; reflexivity|].
  split; cbn; [now rewrite <- IH1 | exact IH2].
Qed.

Lemma patched_patches (ns : string) (plan : list (Kind * Manifest)) :
  patched (flat_map (fun km => [read (fst km) (metadata_name (snd km)) ns;
                                patch (fst km) (metadata_name (snd km)) ns (snd km)])
             plan) = map snd plan
  /\ created (flat_map (fun km => [read (fst km) (metadata_name (snd km)) ns;
                                   patch (fst km) (metadata_name (snd km)) ns (snd km)])
                plan) = [].
Proof.
  induction plan as [|km plan [IH1 IH2]]; [split; reflexivity|].
  split; cbn; [now rewrite <- IH1 | exact IH2].
Qed.

(** C2, amended: for a bundle whose kind tags are the five known ones and
    whose manifests name pairwise distinct kind/name targets, applying it
    to a cluster holding none of the targets places one create per
    manifest and no patch, and applying it again to the cluster this
    leaves places one patch per manifest and no create. *)
Theorem C2_round_trip_distinct_targets (ns : string) (resources : Bundle)
    (s : list (Kind * string)) :
  Forall (fun kv => kind_of (fst kv) <> None) resources ->
  NoDup (map target (apply_plan resources)) ->
  (forall t, In t (map target (apply_plan resources)) -> ~ In t s) ->
  round_trip ns resources s.
Proof.
  intros K ND A. unfold round_trip.
  rewrite (@apply_resources_absent ns resources {| cluster := s; calls := [] |} ND A).
  cbn [cluster calls].
  rewrite apply_resources_present.
  - cbn [cluster calls app].
    destruct (created_creates ns (apply_plan resources)) as [C1 C2].
    destruct (patched_patches ns (apply_plan resources)) as [P1 P2].
    rewrite !app_nil_l, C1, C2, P1, P2, (apply_plan_manifests K). repeat split.
  - cbn [cluster]. intros t I. apply in_or_app. now right.
Qed.

End Apply_properties.

(** C2 as stated fails on a bundle that names one ConfigMap twice: the
    second copy is read back and patched. *)
Lemma C2_counterexample : ~ round_trip "default" twice_named [].
Proof.
  unfold round_trip. vm_compute. intros [_ [_ [P _]]]. discriminate P.
Qed.

Lemma C2_witness :
  round_trip "default" [("pvcs", [sample_pvc]); ("ingress", [sample_ingress])] [].
Proof.
  apply (@C2_round_trip_distinct_targets "default"
           [("pvcs", [sample_pvc]); ("ingress", [sample_ingress])] []).
  - repeat constructor; discriminate.
  - repeat constructor; simpl; intuition discriminate.
  - intros t _ [].
Defined.

(** ** Volumes and volume mounts *)

Section Volume_properties.
Context `{Builtins}.
Import VolumeGenerator DeploymentGenerator.

Lemma positional_names (N : string) (l : list (nat * pyval)) :
  map vm_name (flat_map (volume_mount N) l)
  = map vol_name (flat_map (positional_volume N) l).
Proof.
  induction l as [|[i v] l IH]; [reflexivity|].
  cbn [flat_map]. rewrite !map_app, IH. f_equal.
  unfold volume_mount, positional_volume. cbn [fst snd].
  destruct v as [| | |s| |]; try reflexivity.
  destruct (split colon s) as [|src [|mp rest]]; try reflexivity.
  destruct (startswith "/" src); reflexivity.
Qed.

Lemma config_names (vfs : list VolumesFromEntry) :
  map vm_name (_convert_volumes_from vfs) = map vol_name (volumes_from_volumes vfs).
Proof.
  induction vfs as [|vf vfs IH]; [reflexivity|].
  unfold _convert_volumes_from, volumes_from_volumes in *. cbn [flat_map].
  rewrite !map_app, IH. f_equal. destruct (vf_config vf); reflexivity.
Qed.

Lemma enumerate_from_nth {A : Type} (xs : list A) (k i : nat) (x : A) :
  nth_error xs i = Some x -> In ((k + i)%nat, x) (enumerate_from k xs).
Proof.
  revert k i. induction xs as [|y xs IH]; intros k i E.
  - destruct i; discriminate.
  - destruct i as [|i]; cbn in *.
    + injection E as ->. left. f_equal. lia.
    + right. replace (k + S i)%nat with (S k + i)%nat by lia. now apply IH.
Qed.

Lemma enumerate_nth {A : Type} (xs : list A) (i : nat) (x : A) :
  nth_error xs i = Some x -> In (i, x) (enumerate xs).
Proof. intros E. exact (enumerate_from_nth xs 0 i E). Qed.

(** De-duplication keeps every name. *)
Lemma unique_volumes_names (seen : list string) (vs : list Volume) (n : string) :
  In n (map vol_name vs) ->
  In n seen \/ In n (map vol_name (unique_volumes seen vs)).
Proof.
  revert seen. induction vs as [|v vs IH]; intros seen I; [destruct I|].
  cbn [unique_volumes].
  destruct (existsb (String.eqb (vol_name v)) seen) eqn:E.
  - destruct I as [<-|I]; [|now apply IH].
    left. apply existsb_exists in E. destruct E as [x [I E]].
    apply String.eqb_eq in E. now subst.
  - destruct I as [<-|I]; [right; now left|].
    destruct (IH (vol_name v :: seen) I) as [[<-|S]|R].
    + right. now left.
    + now left.
    + right. now right.
Qed.

Lemma sidecar_volumes_spec (name : string) (config : Spec) (scs : list (string * Spec)) :
  sidecar_volumes name config scs
  = (flat_map (fun sc => _generate_container_volumes (name ++ "-" ++ fst sc)
                           (inherit_volumes config (snd sc))) scs,
     map (fun sc => (fst sc, inherit_volumes config (snd sc))) scs).
Proof.
  induction scs as [|[sn sc] scs IH]; [reflexivity|].
  cbn [sidecar_volumes flat_map map fst snd]. now rewrite IH.
Qed.

Lemma generate_volumes_fst (name : string) (config : AppSpec) :
  fst (generate_volumes name config) = unique_volumes [] (all_volumes name config).
Proof.
  unfold generate_volumes, all_volumes.
  destruct (sidecars config) as [scs|]; cbn [or_empty].
  - rewrite sidecar_volumes_spec. reflexivity.
  - cbn. now rewrite app_nil_r.
Qed.

Lemma inherit_volumes_volumes (config sc : Spec) :
  volumes (inherit_volumes config sc) = volumes (_merge_sidecar_config config sc).
Proof.
  unfold inherit_volumes, _merge_sidecar_config, inherit. cbn [volumes].
  destruct (volumes config) eqn:A, (volumes sc) eqn:B; cbn; rewrite ?B; reflexivity.
Qed.

Lemma inherit_volumes_volumesFrom (config sc : Spec) :
  volumesFrom (inherit_volumes config sc) = volumesFrom sc.
Proof.
  unfold inherit_volumes.
  destruct (volumes config) eqn:A, (volumes sc) eqn:B; reflexivity.
Qed.

(** The mount names of a container built from [config] under [name] are
    volume names of the same owner, given the same [volumes] list. *)
Lemma container_mount_names (name : string) (config config' : Spec) (n : string) :
  volumes config' = volumes config ->
  In n (map vm_name (c_volumeMounts (_create_container name config))) ->
  In n (map vol_name (_generate_container_volumes name config'))
  \/ In n (map vol_name (volumes_from_volumes (or_empty (volumesFrom config)))).
Proof.
  intros V I. unfold _create_container in I. cbn [c_volumeMounts] in I.
  rewrite map_app in I. apply in_app_or in I. destruct I as [I|I].
  - left. unfold _generate_container_volumes. rewrite map_app. apply in_or_app. right.
    rewrite V. unfold _convert_volume_mounts in I.
    destruct (volumes config) as [vs|]; cbn [or_empty] in I.
    + now rewrite <- positional_names.
    + destruct I.
  - right. destruct (volumesFrom config) as [vfs|]; [|destruct I].
    cbn [or_empty]. now rewrite <- config_names.
Qed.

Lemma main_volumesFrom_names (name : string) (config : Spec) (n : string) :
  In n (map vol_name (volumes_from_volumes (or_empty (volumesFrom config)))) ->
  In n (map vol_name (_generate_container_volumes name config)).
Proof.
  intros I. unfold _generate_container_volumes. rewrite map_app. apply in_or_app. left.
  destruct (volumesFrom config); [exact I | destruct I].
Qed.

(** Every mount of every container of the generated Deployment names a
    volume of its pod. *)
Lemma deployment_mounts_resolve (ns name : string) (config : AppSpec)
    (compose : option ComposeModel) (d : Deployment) (c : Container) (m : VolumeMount) :
  In d (deployments (fst (generate ns name config compose))) ->
  In c (dep_containers d) ->
  In m (c_volumeMounts c) ->
  exists v, In v (dep_volumes d) /\ vol_name v = vm_name m.
Proof.
  unfold generate.
  destruct (generate_volumes name config) as [vols config'] eqn:G.
  assert (V : vols = unique_volumes [] (all_volumes name config)).
  { rewrite <- generate_volumes_fst, G. reflexivity. }
  cbn [fst deployments]. intros [<-|[]]. cbn [dep_containers dep_volumes].
  intros C M.
  assert (N : In (vm_name m) (map vol_name (all_volumes name config))).
  { apply (in_map vm_name) in M. unfold all_volumes. rewrite map_app.
    destruct C as [<-|C].
    - apply in_or_app. left.
      destruct (container_mount_names name (app config) (app config) _ eq_refl M) as [I|I];
        [exact I | now apply main_volumesFrom_names].
    - apply in_map_iff in C. destruct C as [[sn sc] [<- S]]. cbn [fst snd] in M.
      destruct (container_mount_names _ _ (inherit_volumes (app config) sc) _
                  (inherit_volumes_volumes (app config) sc) M) as [I|I].
      + apply in_or_app. right. rewrite flat_map_concat_map, concat_map.
        apply in_concat. eexists. split; [|exact I].
        apply in_map_iff. eexists. split; [reflexivity|].
        apply in_map_iff. exists (sn, sc). split; [reflexivity | exact S].
      + cbn [_merge_sidecar_config volumesFrom] in I. unfold inherit in I.
        destruct (volumesFrom sc) as [vfs|] eqn:F.
        * apply in_or_app. right. rewrite flat_map_concat_map, concat_map.
          apply in_concat. eexists. split.
          -- apply in_map_iff. eexists. split; [reflexivity|].
             apply in_map_iff. exists (sn, sc). split; [reflexivity | exact S].
          -- cbn [fst snd]. unfold _generate_container_volumes.
             rewrite inherit_volumes_volumesFrom, F, map_app.
             apply in_or_app. left. exact I.
        * apply in_or_app. left. now apply main_volumesFrom_names. }
  destruct (unique_volumes_names [] _ _ N) as [[]|U].
  rewrite <- V in U. apply in_map_iff in U. destruct U as [v [E I]].
  exists v. split; [exact I | exact E].
Qed.

(** C4: the mount the Deployment generator computes for the positional
    entry [i] ("source:mountPath") of owner [N] is named "vol-N-i", the
    Volume generator gives the volume of the same owner and index the
    same name, and every mount of every container of a generated
    Deployment names a volume of that Deployment's pod. *)
Theorem C4_volume_mount_names (N : string) (config : Spec) (vs : list pyval)
    (i : nat) (s src mp : string) (rest : list string) :
  volumes config = Some vs ->
  nth_error vs i = Some (VStr s) ->
  split colon s = src :: mp :: rest ->
  (volume_mount N (i, VStr s)
   = [ {| vm_name := volume_name N i; vm_mountPath := VStr mp |} ]
   /\ In {| vm_name := volume_name N i; vm_mountPath := VStr mp |}
         (_convert_volume_mounts N vs))
  /\ (exists source,
        positional_volume N (i, VStr s)
        = [ {| vol_name := volume_name N i; vol_source := source |} ]
        /\ In {| vol_name := volume_name N i; vol_source := source |}
              (_generate_container_volumes N config))
  /\ map vm_name (_convert_volume_mounts N vs)
     = map vol_name (flat_map (positional_volume N) (enumerate vs))
  /\ (forall ns name app_config compose d c m,
        In d (deployments (fst (generate ns name app_config compose))) ->
        In c (dep_containers d) ->
        In m (c_volumeMounts c) ->
        exists v, In v (dep_volumes d) /\ vol_name v = vm_name m).
Proof.
  intros V E S. pose proof (enumerate_nth vs i E) as I.
  split; [|split; [|split]].
  - assert (M : volume_mount N (i, VStr s)
                = [ {| vm_name := volume_name N i; vm_mountPath := VStr mp |} ]).
    { unfold volume_mount. cbn [fst snd]. now rewrite S. }
    split; [exact M|].
    unfold _convert_volume_mounts. apply in_flat_map. exists (i, VStr s).
    split; [exact I|]. rewrite M. now left.
  - exists (if startswith "/" src then hostPath src else persistentVolumeClaim src).
    assert (P : positional_volume N (i, VStr s)
                = [ {| vol_name := volume_name N i;
                       vol_source := if startswith "/" src then hostPath src
                                     else persistentVolumeClaim src |} ]).
    { unfold positional_volume. cbn [fst snd]. rewrite S.
      destruct (startswith "/" src); reflexivity. }
    split; [exact P|].
    unfold _generate_container_volumes. apply in_or_app. right. rewrite V.
    apply in_flat_map. exists (i, VStr s). split; [exact I|]. rewrite P. now left.
  - apply positional_names.
  - intros ns name app_config compose d c m. apply deployment_mounts_resolve.
Qed.

End Volume_properties.

Lemma C4_witness :
  In {| vm_name := "vol-whoami-0"; vm_mountPath := VStr "/container/path" |}
     (DeploymentGenerator._convert_volume_mounts "whoami"
        [VStr "/host/path:/container/path"]).
Proof.
  apply (fun a b c => proj2 (proj1 (@C4_volume_mount_names ascii_builtins "whoami"
           {| image := "img"; ports := None; expose := None; environment := None;
              envFrom := None; volumes := Some [VStr "/host/path:/container/path"];
              volumesFrom := None; networks := None; env_file := None |}
           [VStr "/host/path:/container/path"] 0
           "/host/path:/container/path" "/host/path" "/container/path" [] a b c)));
    reflexivity.
Defined.

(** ** De-duplication of volumes *)

Section Dedup_properties.
Import VolumeGenerator.

Lemma append_assoc (a b c : string) : ((a ++ b) ++ c = a ++ (b ++ c))%string.
Proof. induction a as [|x a IH]; cbn; [reflexivity | now rewrite IH]. Qed.

Lemma append_inj_l (p a b : string) : (p ++ a = p ++ b)%string -> a = b.
Proof.
  induction p as [|x p IH]; cbn; intros E; [exact E|].
  injection E as E. now apply IH.
Qed.

Lemma contains_append (c : ascii) (a b : string) :
  contains c (a ++ b) = contains c a || contains c b.
Proof.
  induction a as [|x a IH]; cbn; [reflexivity|].
  now rewrite IH, orb_assoc.
Qed.

Lemma digits_no_dash (d : uint) : contains "-" (NilEmpty.string_of_uint d) = false.
Proof. induction d; cbn; assumption || reflexivity. Qed.

Lemma str_nat_no_dash (n : nat) : contains "-" (str_nat n) = false.
Proof.
  unfold str_nat, NilZero.string_of_uint.
  destruct (Nat.to_uint n) eqn:E; try reflexivity; rewrite <- E; apply digits_no_dash.
Qed.

(** The name of a sidecar's volume is never the name of one of the
    app's own: after the owner prefix the app's name has digits only. *)
Lemma volume_name_owner (name sidecar_name : string) (i j : nat) :
  volume_name name i <> volume_name (name ++ "-" ++ sidecar_name) j.
Proof.
  unfold volume_name. intros E.
  apply (append_inj_l "vol-") in E.
  rewrite !append_assoc in E. apply append_inj_l in E.
  apply (append_inj_l "-") in E.
  pose proof (str_nat_no_dash i) as D. rewrite E in D.
  rewrite contains_append in D. cbn in D.
  rewrite orb_true_r in D. discriminate D.
Qed.

(** The output names no volume twice, and an element of the output is the
    first element of the input with its name. *)
Lemma unique_volumes_first (seen : list string) (vs : list Volume) :
  NoDup (map vol_name (unique_volumes seen vs))
  /\ forall v, In v (unique_volumes seen vs) ->
       ~ In (vol_name v) seen
       /\ find (fun u => String.eqb (vol_name u) (vol_name v)) vs = Some v.
Proof.
  revert seen. induction vs as [|x vs IH]; intros seen.
  - split; [constructor | intros v []].
  - cbn [unique_volumes find].
    destruct (existsb (String.eqb (vol_name x)) seen) eqn:E.
    + destruct (IH seen) as [ND F]. split; [exact ND|].
      intros v I. destruct (F v I) as [NS Fv]. split; [exact NS|].
      destruct (String.eqb_spec (vol_name x) (vol_name v)) as [Q|_]; [|exact Fv].
      exfalso. apply NS. rewrite <- Q.
      apply existsb_exists in E. destruct E as [y [Iy Ey]].
      apply String.eqb_eq in Ey. now subst.
    + destruct (IH (vol_name x :: seen)) as [ND F]. split.
      * cbn [map]. constructor; [|exact ND].
        intros I. apply in_map_iff in I. destruct I as [v [Ev Iv]].
        destruct (F v Iv) as [NS _]. apply NS. left. now symmetry.
      * intros v [<-|I].
        -- split; [|now rewrite String.eqb_refl].
           intros I. assert (X : existsb (String.eqb (vol_name x)) seen = true).
           { apply existsb_exists. exists (vol_name x). split; [exact I|].
             apply String.eqb_refl. }
           congruence.
        -- destruct (F v I) as [NS Fv]. split; [intros S; apply NS; now right|].
           destruct (String.eqb_spec (vol_name x) (vol_name v)) as [Q|_]; [|exact Fv].
           exfalso. apply NS. now left.
Qed.

(** C5, amended: for an app that declares [volumes] and has a sidecar
    declaring none, [generate_volumes] returns, for each inherited entry
    "source:mountPath", one definition under the app's name
    "vol-{app}-{i}" and another under the sidecar's
    "vol-{app}-{sidecar}-{i}"; the output is the de-duplication by name
    of all definitions, first occurrence winning, so it names no volume
    twice, and the two names differ. *)
Theorem C5_generate_volumes_per_owner (name : string) (config : AppSpec)
    (vs : list pyval) (scs : list (string * Spec)) (sidecar_name : string)
    (sidecar_config : Spec) (i : nat) (s src mp : string) (rest : list string) :
  volumes (app config) = Some vs ->
  sidecars config = Some scs ->
  In (sidecar_name, sidecar_config) scs ->
  volumes sidecar_config = None ->
  nth_error vs i = Some (VStr s) ->
  split colon s = src :: mp :: rest ->
  let out := fst (generate_volumes name config) in
  out = unique_volumes [] (all_volumes name config)
  /\ NoDup (map vol_name out)
  /\ (forall v, In v out ->
        find (fun u => String.eqb (vol_name u) (vol_name v))
          (all_volumes name config) = Some v)
  /\ exists v1 v2,
       In v1 out /\ vol_name v1 = volume_name name i
       /\ In v2 out /\ vol_name v2 = volume_name (name ++ "-" ++ sidecar_name) i
       /\ v1 <> v2.
Proof.
  intros V S I VS E SP out.
  assert (O : out = unique_volumes [] (all_volumes name config))
    by apply generate_volumes_fst.
  destruct (unique_volumes_first [] (all_volumes name config)) as [ND F].
  split; [exact O|]. rewrite O. split; [exact ND|].
  split; [intros v Iv; now apply F|].
  pose proof (enumerate_nth vs i E) as IE.
  assert (P : forall N, exists source,
               positional_volume N (i, VStr s)
               = [ {| vol_name := volume_name N i; vol_source := source |} ]).
  { intros N. unfold positional_volume. cbn [fst snd]. rewrite SP.
    destruct (startswith "/" src); eexists; reflexivity. }
  assert (N1 : In (volume_name name i) (map vol_name (all_volumes name config))).
  { destruct (P name) as [source Ps].
    unfold all_volumes. rewrite map_app. apply in_or_app. left.
    unfold _generate_container_volumes. rewrite V, map_app.
    apply in_or_app. right. apply in_map_iff. eexists. split; [|apply in_flat_map].
    2:{ exists (i, VStr s). split; [exact IE|]. rewrite Ps. now left. }
    reflexivity. }
  assert (N2 : In (volume_name (name ++ "-" ++ sidecar_name) i)
                  (map vol_name (all_volumes name config))).
  { destruct (P (name ++ "-" ++ sidecar_name)%string) as [source Ps].
    unfold all_volumes. rewrite map_app. apply in_or_app. right.
    rewrite S. cbn [or_empty]. apply in_map_iff. eexists. split; [|apply in_flat_map].
    2:{ exists (sidecar_name, sidecar_config). split; [exact I|]. cbn [fst snd].
        unfold _generate_container_volumes. apply in_or_app. right.
        unfold inherit_volumes. rewrite V, VS. cbn [volumes set_volumes].
        apply in_flat_map. exists (i, VStr s). split; [exact IE|].
        rewrite Ps. now left. }
    reflexivity. }
  destruct (unique_volumes_names [] _ _ N1) as [[]|U1].
  destruct (unique_volumes_names [] _ _ N2) as [[]|U2].
  apply in_map_iff in U1. destruct U1 as [v1 [E1 I1]].
  apply in_map_iff in U2. destruct U2 as [v2 [E2 I2]].
  exists v1, v2. repeat split; try assumption.
  intros Q. subst v2. rewrite E1 in E2. now apply volume_name_owner in E2.
Qed.

End Dedup_properties.

(** C5 as stated fails on an app with one entry and one inheriting
    sidecar: two definitions come back, "vol-whoami-0" and
    "vol-whoami-metrics-0". *)
Lemma C5_counterexample :
  volumes (app inheriting_app) = Some [VStr "/host/path:/container/path"]
  /\ sidecars inheriting_app = Some [("metrics", spec_with_ports None)]
  /\ volumes (spec_with_ports None) = None
  /\ map vol_name (fst (VolumeGenerator.generate_volumes "whoami" inheriting_app))
     = ["vol-whoami-0"; "vol-whoami-metrics-0"]
  /\ ~ one_definition_per_entry "whoami" inheriting_app.
Proof.
  repeat split. vm_compute. discriminate.
Qed.

Lemma C5_witness :
  exists v1 v2,
    In v1 (fst (VolumeGenerator.generate_volumes "whoami" inheriting_app))
    /\ vol_name v1 = "vol-whoami-0"
    /\ In v2 (fst (VolumeGenerator.generate_volumes "whoami" inheriting_app))
    /\ vol_name v2 = "vol-whoami-metrics-0"
    /\ v1 <> v2.
Proof.
  apply (@C5_generate_volumes_per_owner "whoami" inheriting_app
           [VStr "/host/path:/container/path"] [("metrics", spec_with_ports None)]
           "metrics" (spec_with_ports None) 0 "/host/path:/container/path"
           "/host/path" "/container/path" []); try reflexivity.
  now left.
Defined.

(** ** The orchestrating generator *)

Section Generate_all_properties.
Context `{Builtins}.
Import KubeResourceGenerator.

Lemma inline_configmaps_spec (ns : string) (cfgs : list (string * ConfigSpec)) :
  DeploymentGenerator.inline_configmaps ns cfgs = inline_configs ns cfgs.
Proof.
  unfold DeploymentGenerator.inline_configmaps, inline_configs.
  induction cfgs as [|[n c] cfgs IH]; [reflexivity|].
  cbn [flat_map filter map fst snd]. rewrite IH.
  destruct (cfg_external c) as [[|]|]; reflexivity.
Qed.

Lemma generate_app_resources (ns : string) (compose : ComposeModel)
    (app_name : string) (app_config : AppSpec) (r : Resources) (app_config' : AppSpec) :
  generate_app ns compose app_name app_config = Ok (r, app_config') ->
  res_configmaps r = inline_configs ns (configs compose)
  /\ res_pvcs r = []
  /\ map dep_name (res_deployments r) = [app_name].
Proof.
  unfold generate_app, DeploymentGenerator.generate.
  destruct (VolumeGenerator.generate_volumes app_name app_config) as [vols c'].
  intros G. apply bind_ok in G. destruct G as [si [_ G]].
  injection G as <- <-. cbn. now rewrite inline_configmaps_spec.
Qed.

Lemma generate_apps_resources (ns : string) (compose : ComposeModel)
    (l : list (string * AppSpec)) (acc r : Resources) (l' : list (string * AppSpec)) :
  generate_apps ns compose l acc = Ok (r, l') ->
  res_configmaps r
  = res_configmaps acc ++ flat_map (fun _ => inline_configs ns (configs compose)) l
  /\ res_pvcs r = res_pvcs acc
  /\ map dep_name (res_deployments r) = map dep_name (res_deployments acc) ++ map fst l.
Proof.
  revert acc r l'. induction l as [|[app_name app_config] l IH]; intros acc r l' G.
  - injection G as <- <-. now rewrite !app_nil_r.
  - cbn [generate_apps] in G.
    apply bind_ok in G. destruct G as [[r1 c1] [G1 G]].
    apply bind_ok in G. destruct G as [[r2 l2] [G2 G]].
    injection G as <- <-. cbn [fst snd] in *.
    destruct (generate_app_resources _ _ _ _ G1) as [C1 [P1 D1]].
    destruct (IH _ _ _ G2) as [C2 [P2 D2]].
    rewrite C2, P2, D2. unfold extend. cbn [res_configmaps res_pvcs res_deployments].
    rewrite C1, P1, map_app, D1, <- !app_assoc, app_nil_r.
    cbn [flat_map map fst app]. repeat split.
Qed.

Lemma of_kind_to_bundle (r : Resources) :
  of_kind "configmaps" (to_bundle r) = map MConfigMap (res_configmaps r)
  /\ of_kind "deployments" (to_bundle r) = map MDeployment (res_deployments r).
Proof.
  unfold of_kind, to_bundle.
  destruct r as [cms pvcs deps svcs ings]. cbn [res_configmaps res_pvcs res_deployments
    res_services res_ingress].
  destruct cms, pvcs, deps, svcs, ings; split; reflexivity.
Qed.

(** C6, amended: when generation returns, the bundle holds exactly one
    Deployment manifest per app, named after it, and, for each app, one
    ConfigMap manifest per non-external entry of [configs], named
    "config-{name}" with the entry's data copied verbatim: the inline
    ConfigMaps are emitted once per app. *)
Theorem C6_bundle_deployments_and_configmaps (ns : string) (compose compose' : ComposeModel)
    (b : Bundle) :
  generate_all ns compose = Ok (b, compose') ->
  (exists ds, of_kind "deployments" b = map MDeployment ds
              /\ map dep_name ds = map fst (apps compose))
  /\ of_kind "configmaps" b
     = map MConfigMap
         (flat_map (fun _ => inline_configs ns (configs compose)) (apps compose)).
Proof.
  unfold generate_all, generate_resources. intros G.
  apply bind_ok in G. destruct G as [[r m] [G E]].
  apply bind_ok in G. destruct G as [[r' l'] [G E']].
  injection E' as <- <-. injection E as <- <-. cbn [fst snd].
  destruct (generate_apps_resources _ _ _ _ G) as [C [_ D]].
  destruct (of_kind_to_bundle r') as [BC BD].
  split.
  - exists (res_deployments r'). split; [exact BD | exact D].
  - rewrite BC, C. reflexivity.
Qed.

End Generate_all_properties.

(** C6 as stated fails on a model with two apps and one inline config:
    the bundle holds "config-settings" twice. *)
Lemma C6_counterexample :
  exists b compose',
    KubeResourceGenerator.generate_all "default" two_apps = Ok (b, compose')
    /\ map metadata_name (of_kind "configmaps" b) = ["config-settings"; "config-settings"]
    /\ ~ one_configmap_per_config "default" two_apps b.
Proof.
  eexists. eexists. split; [reflexivity|]. split; [reflexivity|].
  unfold one_configmap_per_config. vm_compute. discriminate.
Qed.

Lemma C6_witness :
  exists b,
    of_kind "configmaps" b
    = map MConfigMap
        (flat_map (fun _ => inline_configs "default" (configs two_apps)) (apps two_apps)).
Proof.
  eexists.
  eapply (@C6_bundle_deployments_and_configmaps ascii_builtins "default" two_apps).
  reflexivity.
Defined.

(** C9, at a model whose app declares [volumes] and whose sidecar declares
    none: generation returns, and the model it leaves differs from the
    one it was given, the sidecar now carrying the app's [volumes]. *)
Theorem C9_generate_all_writes_sidecar_volumes :
  exists b compose',
    KubeResourceGenerator.generate_all "default" inheriting_model = Ok (b, compose')
    /\ compose' <> inheriting_model
    /\ map (fun na => map (fun sc => volumes (snd sc)) (or_empty (sidecars (snd na))))
           (apps inheriting_model) = [[None]]
    /\ map (fun na => map (fun sc => volumes (snd sc)) (or_empty (sidecars (snd na))))
           (apps compose') = [[Some [VStr "/host/path:/container/path"]]].
Proof.
  eexists. eexists. split; [reflexivity|].
  split; [discriminate|]. split; reflexivity.
Qed.

(** ** Ingress generation *)

Section Ingress_properties.
Context `{Builtins}.
Import IngressGenerator.

Lemma last_nonempty {A : Type} (l : list A) (a d d' : A) :
  last (a :: l) d = last (a :: l) d'.
Proof.
  revert a. induction l as [|b l IH]; intros a; [reflexivity|].
  change (last (b :: l) d = last (b :: l) d'). apply IH.
Qed.

Lemma last_app {A : Type} (l1 l2 : list A) (d : A) :
  last (l1 ++ l2) d = last l2 (last l1 d).
Proof.
  induction l1 as [|x l1 IH]; [reflexivity|].
  destruct l1 as [|y l1].
  - destruct l2 as [|a l2]; [reflexivity|].
    change (last (a :: l2) d = last (a :: l2) x). apply last_nonempty.
  - change (last ((y :: l1) ++ l2) d = last l2 (last (y :: l1) d)). exact IH.
Qed.

Lemma append_rule_class (name : string) (st : Locals) :
  ingress_class_name (append_rule name st) = ingress_class_name st.
Proof. unfold append_rule. destruct (bound st); reflexivity. Qed.

Lemma expose_items_class (items : list (string * pyval)) (st : Locals) :
  ingress_class_name (expose_items items st)
  = last (item_class_names items) (ingress_class_name st).
Proof.
  revert st. induction items as [|[domain v] items IH]; intros st; [reflexivity|].
  unfold item_class_names in *. cbn [flat_map snd].
  rewrite last_app. cbn [expose_items].
  destruct v as [| | | | |settings]; try (rewrite IH; reflexivity).
  rewrite IH. cbn [ingress_class_name].
  destruct (get "ingressClassName" settings); reflexivity.
Qed.

Lemma expose_entry_class (name : string) (st : Locals) (entry : pyval) :
  ingress_class_name (expose_entry name st entry)
  = last (match entry with VDict items => item_class_names items | _ => [] end)
         (ingress_class_name st).
Proof.
  destruct entry as [| | |s| |items]; try reflexivity.
  - cbn [expose_entry].
    destruct (startswith "http://" s || startswith "https://" s); [|reflexivity].
    destruct (urlparse s); [|reflexivity].
    now rewrite append_rule_class.
  - destruct items as [|kv items]; [reflexivity|].
    cbn [expose_entry]. now rewrite append_rule_class, expose_items_class.
Qed.

Lemma fold_expose_class (name : string) (entries : list pyval) (st : Locals) :
  ingress_class_name (fold_left (expose_entry name) entries st)
  = last (class_names entries) (ingress_class_name st).
Proof.
  revert st. induction entries as [|e entries IH]; intros st; [reflexivity|].
  cbn [fold_left]. rewrite IH, expose_entry_class.
  unfold class_names. cbn [flat_map]. now rewrite last_app.
Qed.

Lemma expose_items_rules (items : list (string * pyval)) (st : Locals) :
  rules (expose_items items st) = rules st.
Proof.
  revert st. induction items as [|[d v] items IH]; intros st; [reflexivity|].
  destruct v; cbn [expose_items]; rewrite IH; reflexivity.
Qed.

Lemma longer_list {A : Type} (l : list A) (x : A) : l ++ [x] <> l.
Proof.
  intros E. apply (f_equal (@length A)) in E. rewrite length_app in E.
  cbn in E. lia.
Qed.

(** While [host], [path] and [service_port] are unbound, an iteration
    that adds no rule leaves them unbound. *)
Lemma expose_entry_unbound (name : string) (st : Locals) (entry : pyval) :
  bound st = None ->
  rules (expose_entry name st entry) = rules st ->
  bound (expose_entry name st entry) = None.
Proof.
  intros B R. destruct entry as [| | |s| |items]; try exact B.
  - cbn [expose_entry] in *.
    destruct (startswith "http://" s || startswith "https://" s); [|exact B].
    destruct (urlparse s) as [parsed|]; [|exact B].
    unfold append_rule in R. cbn [bound rules] in R.
    exfalso. revert R. apply longer_list.
  - destruct items as [|kv items]; [exact B|].
    cbn [expose_entry] in *. unfold append_rule in *.
    destruct (bound (expose_items (kv :: items) st)) as [hpp|] eqn:B'; [|exact B'].
    cbn [rules] in R. rewrite expose_items_rules in R.
    exfalso. revert R. apply longer_list.
Qed.

Lemma fold_expose_no_rule (name : string) (entries : list pyval) (st : Locals) :
  bound st = None ->
  (forall e st', In e entries -> bound st' = None ->
                 rules (expose_entry name st' e) = rules st') ->
  rules (fold_left (expose_entry name) entries st) = rules st.
Proof.
  revert st. induction entries as [|e entries IH]; intros st B N; [reflexivity|].
  cbn [fold_left]. rewrite IH.
  - apply N; [now left | exact B].
  - apply expose_entry_unbound; [exact B|]. apply N; [now left | exact B].
  - intros e' st' I. apply N. now right.
Qed.

(** C7, amended: no Ingress when [expose] is absent or no entry adds a
    rule (it is enough that none does while [host], [path] and
    [service_port] are unbound, as they are until an entry is usable);
    otherwise the Ingress carries as [ingressClassName] the last value
    seen over the entries in order ("traefik" when none is) when that
    value is truthy, and carries no [ingressClassName] when it is not
    (an empty string); a mapping-form entry gives a rule whose path
    defaults to "/" and whose service port defaults to 80. *)
Theorem C7_ingress_class_name (ns name : string) (config : Spec) :
  (expose config = None -> generate ns name config = None)
  /\ (forall entries,
        expose config = Some entries ->
        (forall e st, In e entries -> bound st = None ->
                      rules (expose_entry name st e) = rules st) ->
        generate ns name config = None)
  /\ (forall entries i,
        expose config = Some entries ->
        generate ns name config = Some i ->
        ing_className i = (if truthy (last_class_name entries)
                           then Some (last_class_name entries) else None)
        /\ (class_names entries = [] -> ing_className i = Some (VStr "traefik")))
  /\ (forall st domain settings,
        rules (expose_entry name st (VDict [(domain, VDict settings)]))
        = rules st ++ [ {| r_host := rstrip colon domain;
                           r_path := match get "path" settings with
                                     | Some p => p
                                     | None => VStr "/"
                                     end;
                           r_service := name;
                           r_port := match get "port" settings with
                                     | Some p => p
                                     | None => VInt 80
                                     end |} ]).
Proof.
  split; [|split; [|split]].
  - intros E. unfold generate. now rewrite E.
  - intros entries E N. unfold generate. rewrite E.
    rewrite fold_expose_no_rule; [reflexivity | reflexivity | exact N].
  - intros entries i E G. unfold generate in G. rewrite E in G.
    destruct (rules (fold_left (expose_entry name) entries _)) as [|r rs]; [discriminate|].
    injection G as <-. cbn [ing_className].
    rewrite fold_expose_class. cbn [ingress_class_name].
    fold (last_class_name entries). split; [reflexivity|].
    intros C. unfold last_class_name. rewrite C. reflexivity.
  - intros st domain settings. reflexivity.
Qed.

End Ingress_properties.

(** C7 as stated fails when the last [ingressClassName] is the empty
    string: an Ingress is generated and carries no class name. *)
Lemma C7_counterexample :
  let config := exposing [VDict [("example.com", VDict [("ingressClassName", VStr "")])]] in
  (exists i, IngressGenerator.generate "default" "whoami" config = Some i
             /\ ing_className i = None)
  /\ ~ class_is_last_seen "default" "whoami" config.
Proof.
  cbv zeta. split.
  - eexists. split; reflexivity.
  - intros C. specialize (C _ _ eq_refl eq_refl). discriminate C.
Qed.

Lemma C7_witness :
  (exists i,
     IngressGenerator.generate "default" "whoami" three_entries = Some i
     /\ ing_className i = Some (VStr "haproxy"))
  /\ IngressGenerator.generate "default" "whoami" unusable_entries = None.
Proof.
  split.
  - destruct (@C7_ingress_class_name ascii_builtins "default" "whoami" three_entries)
      as [_ [_ [P _]]].
    eexists. split; [reflexivity|].
    exact (proj1 (P _ _ eq_refl eq_refl)).
  - destruct (@C7_ingress_class_name ascii_builtins "default" "whoami" unusable_entries)
      as [_ [Q _]].
    apply (Q _ eq_refl). intros e st I B. cbn in I.
    destruct I as [<-|[<-|[<-|[<-|[]]]]]; cbn;
      unfold IngressGenerator.append_rule; cbn; try rewrite B; reflexivity.
Defined.

(** ** Referential validation *)

Section Validation_properties.
Import ComposeValidator.

Lemma first_violation_app (f : Reference -> option string) (l1 l2 : list Reference) :
  first_violation f (l1 ++ l2)
  = match first_violation f l1 with
    | Some msg => Some msg
    | None => first_violation f l2
    end.
Proof.
  induction l1 as [|r l1 IH]; [reflexivity|].
  cbn. destruct (f r); [reflexivity | exact IH].
Qed.

Lemma first_violation_some (f : Reference -> option string) (rs : list Reference) :
  first_violation f rs <> None <-> exists r, In r rs /\ f r <> None.
Proof.
  induction rs as [|r rs IH]; cbn.
  - split; [congruence | intros [r [[] _]]].
  - destruct (f r) eqn:E.
    + split; [|discriminate]. intros _. exists r. split; [now left | congruence].
    + rewrite IH. split; intros [r' [I F]].
      * exists r'. split; [now right | exact F].
      * destruct I as [<-|I]; [congruence|]. exists r'. now split.
Qed.

(** A loop whose body fails exactly on the first violation of what the
    element refers to fails on the first violation of all. *)
Lemma for_each_first {A : Type} (body : A -> result unit) (refs : A -> list Reference)
    (f : Reference -> option string) (xs : list A) :
  (forall x, body x = outcome (first_violation f (refs x))) ->
  for_each body xs = outcome (first_violation f (flat_map refs xs)).
Proof.
  intros B. induction xs as [|x xs IH]; [reflexivity|].
  cbn [for_each flat_map]. rewrite first_violation_app, B.
  destruct (first_violation f (refs x)); [reflexivity | exact IH].
Qed.

Lemma validate_config_reference (cfgs : list (string * ConfigSpec))
    (external_configs external_secrets : list string)
    (app_name : string) (sidecar_name : option string) (n : string) :
  _validate_config_reference n app_name cfgs external_configs sidecar_name
  = outcome (fault cfgs external_configs external_secrets
               {| ref_app := app_name; ref_sidecar := sidecar_name;
                  ref_kind := RConfig; ref_name := n |}).
Proof.
  unfold _validate_config_reference, fault. cbn.
  destruct (get n cfgs) as [c|]; [|reflexivity].
  destruct (match cfg_external c with Some b => b | None => false end); [|reflexivity].
  destruct (mem n external_configs); reflexivity.
Qed.

Lemma first_violation_one (f : Reference -> option string) (r : Reference) :
  first_violation f [r] = f r.
Proof. cbn. destruct (f r); reflexivity. Qed.

Lemma check_config_first (cfgs : list (string * ConfigSpec))
    (external_configs external_secrets : list string)
    (app_name : string) (sidecar_name : option string) (n : string) :
  (if named n
   then _validate_config_reference n app_name cfgs external_configs sidecar_name
   else Ok tt)
  = outcome (first_violation (violation cfgs external_configs external_secrets)
               [ {| ref_app := app_name; ref_sidecar := sidecar_name;
                    ref_kind := RConfig; ref_name := n |} ]).
Proof.
  rewrite first_violation_one. unfold violation. cbn [ref_name].
  destruct (named n); [|reflexivity].
  apply validate_config_reference.
Qed.

Lemma check_spec_first (cfgs : list (string * ConfigSpec))
    (external_configs external_secrets : list string)
    (app_name : string) (sidecar_name : option string) (config : Spec) :
  check_spec app_name sidecar_name cfgs external_configs external_secrets config
  = outcome (first_violation (violation cfgs external_configs external_secrets)
               (spec_references app_name sidecar_name config)).
Proof.
  unfold check_spec, spec_references. rewrite first_violation_app.
  rewrite (for_each_first _
             (fun volume => match vf_config volume with
                            | Some n => [ {| ref_app := app_name; ref_sidecar := sidecar_name;
                                             ref_kind := RConfig; ref_name := n |} ]
                            | None => []
                            end)
             (violation cfgs external_configs external_secrets)).
  - destruct (first_violation _ (flat_map _ (or_empty (volumesFrom config))));
      [reflexivity|]. cbn [outcome bind].
    apply for_each_first. intros env. unfold check_env_from.
    destruct env as [n|n|]; [| |reflexivity].
    + apply check_config_first.
    + rewrite first_violation_one. unfold violation, fault. cbn [ref_name ref_kind
        ref_sidecar ref_app].
      destruct (named n); [|reflexivity]. cbn [andb].
      destruct (mem n external_secrets); reflexivity.
  - intros volume. unfold check_volume_from.
    destruct (vf_config volume) as [n|]; [|reflexivity].
    apply check_config_first.
Qed.

(** C8, amended: validation raises the failure of the first reference,
    in iteration order, that has a non-empty name and is at fault (a
    config absent from [configs], or marked external and absent from the
    external configs, or a secret absent from the external secrets), the
    message naming the app, the sidecar and the name; it returns when
    there is none.  So it fails exactly when some reference with a
    non-empty name is at fault. *)
Theorem C8_validation_first_violation (compose_data : ComposeModel)
    (external_configs external_secrets : list string) :
  _validate_external_resources compose_data external_configs external_secrets
  = outcome (first_violation
               (violation (configs compose_data) external_configs external_secrets)
               (references compose_data))
  /\ ((exists msg,
         _validate_external_resources compose_data external_configs external_secrets
         = Raise (ValueError msg))
      <-> exists r, In r (references compose_data)
                    /\ named (ref_name r) = true
                    /\ fault (configs compose_data) external_configs external_secrets r
                       <> None).
Proof.
  assert (E : _validate_external_resources compose_data external_configs external_secrets
              = outcome (first_violation
                           (violation (configs compose_data) external_configs
                              external_secrets)
                           (references compose_data))).
  { unfold _validate_external_resources, references.
    apply for_each_first. intros [app_name app_config]. unfold check_app.
    cbn [fst snd]. rewrite first_violation_app, check_spec_first.
    destruct (first_violation _ (spec_references app_name None (app app_config)));
      [reflexivity|]. cbn [outcome bind].
    apply for_each_first. intros [sn sc]. apply check_spec_first. }
  split; [exact E|]. rewrite E.
  split.
  - intros [msg R].
    destruct (first_violation _ (references compose_data)) eqn:F; [|discriminate].
    assert (F' : first_violation
                   (violation (configs compose_data) external_configs external_secrets)
                   (references compose_data) <> None) by congruence.
    apply first_violation_some in F'. destruct F' as [r [I V]].
    exists r. unfold violation in V. destruct (named (ref_name r)); [|congruence].
    repeat split; assumption.
  - intros [r [I [N V]]].
    assert (F : first_violation
                  (violation (configs compose_data) external_configs external_secrets)
                  (references compose_data) <> None).
    { apply first_violation_some. exists r. split; [exact I|].
      unfold violation. now rewrite N. }
    destruct (first_violation _ (references compose_data)) as [msg|]; [|congruence].
    exists msg. reflexivity.
Qed.

End Validation_properties.

(** C8 as stated fails on a reference to the secret named by the empty
    string: it is absent from the external secrets, and validation
    returns. *)
Lemma C8_counterexample :
  ComposeValidator._validate_external_resources unnamed_secret [] [] = Ok tt
  /\ ~ fails_iff_fault unnamed_secret [] [].
Proof.
  split; [reflexivity|].
  intros [_ F].
  destruct F as [msg R]; [|discriminate R].
  eexists. split; [left; reflexivity | discriminate].
Qed.

(** ** What generation writes into the model *)

Section Model_after_generation.
Context `{Builtins}.
Import KubeResourceGenerator VolumeGenerator.

Lemma generate_volumes_snd (name : string) (config : AppSpec) :
  snd (generate_volumes name config) = with_inherited_volumes config.
Proof.
  unfold generate_volumes, with_inherited_volumes.
  destruct config as [c [scs|] d]; cbn [sidecars app deploy option_map].
  - rewrite sidecar_volumes_spec. reflexivity.
  - reflexivity.
Qed.




End Model_after_generation.

(** ** The repository's tests and the specification's examples *)

Example test_service_generation :
  option_map (map svc_name)
    (match ServiceGenerator.generate "default" "whoami" fixture_app_config with
     | Ok services => Some services
     | Raise _ => None
     end)
  = Some ["whoami"; "whoami-metrics"; "whoami-metrics-lb"; "whoami-ingress"].
Proof. reflexivity. Qed.

Example test_service_types :
  ServiceGenerator.generate "default" "whoami" service_types_config
  = Ok [ ServiceGenerator.default_service "default" "whoami"
           {| sp_name := "port-8080"; sp_port := 8080; sp_targetPort := 80;
              sp_protocol := "TCP" |};
         ServiceGenerator.lb_service "default" "whoami"
           {| sp_name := "port-8443"; sp_port := 8443; sp_targetPort := 443;
              sp_protocol := "TCP" |};
         ServiceGenerator.ingress_service "default" "whoami" ].
Proof. reflexivity. Qed.

Example test_ingress_generation :
  IngressGenerator.generate "default" "whoami" (app fixture_app_config)
  = Some {| ing_name := "whoami"; ing_namespace := "default";
            ing_rules := [ {| r_host := "magic-127-0-0-1.nip.io"; r_path := VStr "/";
                              r_service := "whoami"; r_port := VInt 80 |} ];
            ing_className := Some (VStr "traefik") |}.
Proof. reflexivity. Qed.

Example specification_ingress_example :
  IngressGenerator.generate "default" "whoami" (app service_types_config)
  = Some {| ing_name := "whoami"; ing_namespace := "default";
            ing_rules := [ {| r_host := "example.com"; r_path := VStr "/";
                              r_service := "whoami"; r_port := VInt 80 |} ];
            ing_className := Some (VStr "traefik") |}.
Proof. reflexivity. Qed.

Example test_deployment_with_volume_mounts :
  map (fun d => (map vol_name (dep_volumes d),
                 map (fun c => (c_name c, map vm_name (c_volumeMounts c)))
                     (dep_containers d)))
      (deployments (fst (DeploymentGenerator.generate "default" "whoami"
                           fixture_with_volumes None)))
  = [ (["vol-whoami-0"; "vol-whoami-metrics-0"; "config-fluentd-config";
        "vol-whoami-logger-0"],
       [("whoami", ["vol-whoami-0"]);
        ("whoami-metrics", ["vol-whoami-metrics-0"]);
        ("whoami-logger", ["vol-whoami-logger-0"; "config-fluentd-config"])]) ].
Proof. reflexivity. Qed.

(** A delete refused with 403 ends the run: the ingress is deleted, the
    Deployment's delete is placed and refused, the Service is never
    reached and stays in the cluster. *)
Example delete_stops_at_forbidden :
  @ResourceManager.delete_resources _ forbidding_cluster "default"
    [("services", [sample_service]); ("deployments", [sample_deployment]);
     ("ingress", [sample_ingress])]
    {| ResourceManager.cluster :=
         [(KService, "whoami-ingress"); (KDeployment, "whoami"); (KIngress, "whoami")];
       ResourceManager.calls := [] |}
  = (Raise (Exception "Failed to delete deployments 'whoami': (403) Reason: Forbidden"),
     {| ResourceManager.cluster := [(KService, "whoami-ingress"); (KDeployment, "whoami")];
        ResourceManager.calls := [delete KIngress "whoami" "default";
                                  delete KDeployment "whoami" "default"] |}).
Proof. reflexivity. Qed.

(** The bundle generated for two apps over one inline config names the
    ConfigMap twice, and its first application patches the second copy. *)
Example generated_bundle_names_a_configmap_twice :
  exists b compose',
    KubeResourceGenerator.generate_all "default" two_apps = Ok (b, compose')
    /\ ~ round_trip "default" b [].
Proof.
  eexists. eexists. split; [reflexivity|].
  unfold round_trip. vm_compute. intros [_ [_ [P _]]]. discriminate P.
Qed.

(** * Further properties of the code *)

(** ** Service ports and Services *)

Section More_service_properties.
Context `{Builtins}.
Import BaseGenerator ServiceGenerator.

Lemma convert_service_port_entry_shape (port : pyval) (l : list ServicePort) :
  convert_service_port_entry port = Ok l ->
  (length l <= 1)%nat
  /\ Forall (fun p => sp_name p = ("port-" ++ str_Z (sp_port p))%string) l.
Proof.
  destruct port as [| | |s| |d]; cbn [convert_service_port_entry]; intros E;
    try (injection E as <-; split; [cbn; lia | constructor]).
  - destruct (firstn 2 (split colon s)) as [|source [|target [|x xs]]]; try discriminate.
    apply bind_ok in E. destruct E as [t [_ E]].
    apply bind_ok in E. destruct E as [sp [_ E]].
    apply bind_ok in E. destruct E as [tp [_ E]].
    injection E as <-. split; [cbn; lia | repeat constructor].
  - apply bind_ok in E. destruct E as [pp [_ E]].
    apply bind_ok in E. destruct E as [tp [_ E]].
    apply bind_ok in E. destruct E as [pr [_ E]].
    injection E as <-. split; [cbn; lia | repeat constructor].
Qed.

(** X1: [_convert_service_ports] gives at most one port per raw entry,
    and names each port "port-" followed by its published port. *)
Theorem X1_service_ports_named_after_published (raw : list pyval) :
  (length (_convert_service_ports raw) <= length raw)%nat
  /\ Forall (fun p => sp_name p = ("port-" ++ str_Z (sp_port p))%string)
        (_convert_service_ports raw).
Proof.
  unfold _convert_service_ports.
  induction raw as [|port raw [IHl IHn]]; [split; [reflexivity | constructor]|].
  cbn [flat_map]. rewrite length_app.
  destruct (convert_service_port_entry port) as [l|e] eqn:E; cbn [or_skip].
  - destruct (convert_service_port_entry_shape _ E) as [L N].
    split; [cbn [length]; lia | apply Forall_app; now split].
  - split; [cbn [length app]; lia | exact IHn].
Qed.

(** X2: a string entry always converts to a TCP port, whatever protocol
    suffix it carries. *)
Theorem X2_string_entries_are_tcp (entries : list string) :
  Forall (fun p => sp_protocol p = "TCP") (_convert_service_ports (map VStr entries)).
Proof.
  unfold _convert_service_ports.
  induction entries as [|s entries IH]; [constructor|].
  cbn [map flat_map]. apply Forall_app. split; [|exact IH].
  destruct (convert_service_port_entry (VStr s)) as [l|e] eqn:E; [|constructor].
  cbn [or_skip]. cbn [convert_service_port_entry] in E.
  destruct (firstn 2 (split colon s)) as [|source [|target [|x xs]]]; try discriminate.
  apply bind_ok in E. destruct E as [t [_ E]].
  apply bind_ok in E. destruct E as [sp [_ E]].
  apply bind_ok in E. destruct E as [tp [_ E]].
  injection E as <-. repeat constructor.
Qed.

Lemma split_without (sep : ascii) (s : string) :
  contains sep s = false -> split sep s = [s].
Proof.
  induction s as [|c s IH]; [reflexivity|]. cbn.
  destruct (Ascii.eqb c sep); [discriminate|]. cbn. intros E. now rewrite IH.
Qed.

(** X3: a port written without a published part ("80") gives a container
    port and no service port. *)
Theorem X3_bare_port_has_no_service_port (s : string) :
  contains colon s = false ->
  startswith "http" s = false ->
  _convert_service_ports [VStr s] = []
  /\ _convert_ports [VStr s]
     = match int_of_str (hd "" (split slash s)) with
       | Some z => [ {| containerPort := z; cp_protocol := "TCP" |} ]
       | None => []
       end.
Proof.
  intros C P. split.
  - unfold _convert_service_ports. cbn [flat_map convert_service_port_entry].
    rewrite (split_without _ _ C). reflexivity.
  - unfold _convert_ports. cbn [flat_map convert_port_entry]. rewrite P.
    cbn [bind]. rewrite (split_without _ _ C). cbn [last].
    destruct (split slash s) as [|t ts] eqn:S; cbn [index nth_error hd bind].
    + destruct s; discriminate S || (cbn in S; destruct (Ascii.eqb _ _), (split slash s);
        discriminate S).
    + unfold py_int. destruct (int_of_str t); reflexivity.
Qed.

End More_service_properties.

Lemma X3_witness :
  BaseGenerator._convert_service_ports [VStr "80"] = []
  /\ BaseGenerator._convert_ports [VStr "80"]
     = [ {| containerPort := 80; cp_protocol := "TCP" |} ].
Proof.
  apply (@X3_bare_port_has_no_service_port ascii_builtins "80"); reflexivity.
Defined.

Section Service_invariants.
Context `{Builtins}.
Import BaseGenerator ServiceGenerator.

Lemma to_uint_nonnil (n : nat) : Nat.to_uint n <> Nil.
Proof.
  rewrite <- (DecimalNat.Unsigned.of_to n) at 1.
  rewrite DecimalNat.Unsigned.to_of. apply DecimalFacts.unorm_nonnil.
Qed.

Lemma str_nat_inj (a b : nat) : str_nat a = str_nat b -> a = b.
Proof.
  unfold str_nat. intros E.
  apply (f_equal NilZero.uint_of_string) in E.
  rewrite !NilZero.usu in E by apply to_uint_nonnil.
  injection E as E. now apply DecimalNat.Unsigned.to_uint_inj.
Qed.

Lemma enumerate_from_fst {A : Type} (k : nat) (xs : list A) :
  map fst (enumerate_from k xs) = seq k (length xs).
Proof.
  revert k. induction xs as [|x xs IH]; intros k; [reflexivity|].
  cbn. now rewrite IH.
Qed.

Lemma NoDup_map_injective {A B : Type} (f : A -> B) (l : list A) :
  (forall a b, f a = f b -> a = b) -> NoDup l -> NoDup (map f l).
Proof.
  intros I ND. induction ND as [|x l NI ND IH]; [constructor|].
  cbn. constructor; [|exact IH].
  intros M. apply in_map_iff in M. destruct M as [y [E Iy]].
  apply I in E. now subst.
Qed.

(** The index-derived port names of a sidecar Service differ pairwise. *)
Lemma indexed_names_NoDup (prefix : string) (converted : list ServicePort) :
  NoDup (map sp_name
           (map (fun ip => renamed (prefix ++ str_nat (fst ip)) (snd ip))
              (enumerate converted))).
Proof.
  rewrite map_map. cbn [renamed sp_name].
  rewrite <- (map_map fst (fun i => (prefix ++ str_nat i)%string)).
  unfold enumerate. rewrite enumerate_from_fst.
  apply NoDup_map_injective; [|apply seq_NoDup].
  intros a b E. apply append_inj_l in E. now apply str_nat_inj.
Qed.

(** A property of the three main-app Services and of the Services of
    every sidecar is a property of all Services [generate] returns. *)
Lemma generate_services_forall (P : Service -> Prop) (ns name : string)
    (config : AppSpec) (services : list Service) :
  (forall p, P (default_service ns name p)) ->
  (forall p, P (lb_service ns name p)) ->
  P (ingress_service ns name) ->
  (forall sn sc svcs, _generate_sidecar_services ns name sn sc = Ok svcs ->
                      Forall P svcs) ->
  generate ns name config = Ok services ->
  Forall P services.
Proof.
  intros PD PL PI PS G. unfold generate in G.
  apply bind_ok in G. destruct G as [dflt [D G]].
  apply bind_ok in G. destruct G as [scs [S G]].
  apply bind_ok in G. destruct G as [lb [L G]]. injection G as <-.
  repeat (apply Forall_app; split).
  - destruct (nonempty (ports (app config))); [|injection D as <-; constructor].
    apply bind_ok in D. destruct D as [p [_ D]]. injection D as <-.
    constructor; [apply PD | constructor].
  - clear D L. revert scs S.
    induction (or_empty (sidecars config)) as [|[sn sc] l IH]; intros scs S.
    + injection S as <-. constructor.
    + cbn [sidecar_services] in S.
      apply bind_ok in S. destruct S as [here [E S]].
      apply bind_ok in S. destruct S as [rest [R S]]. injection S as <-.
      apply Forall_app. split; [|now apply IH].
      destruct (needs_service sc); [now apply (PS sn sc) | injection E as <-; constructor].
  - destruct (nonempty (ports (app config)) && _); [|injection L as <-; constructor].
    apply bind_ok in L. destruct L as [p [_ L]]. injection L as <-.
    constructor; [apply PL | constructor].
  - destruct (nonempty (expose (app config))); repeat constructor. exact PI.
Qed.

Lemma append_empty_r (a : string) : (a ++ "")%string = a.
Proof. induction a as [|c a IH]; cbn; [reflexivity | now rewrite IH]. Qed.

Lemma sidecar_services_cases (ns name sn : string) (sc : Spec) (svcs : list Service) :
  _generate_sidecar_services ns name sn sc = Ok svcs ->
  Forall (fun s =>
            exists prefix suffix,
              svc_name s = (name ++ "-" ++ sn ++ suffix)%string
              /\ svc_namespace s = ns
              /\ svc_labels s = sidecar_labels name sn
              /\ svc_selector s = sidecar_labels name sn
              /\ svc_ports s
                 = map (fun ip => renamed (prefix ++ str_nat (fst ip)) (snd ip))
                     (enumerate (_convert_service_ports (or_empty (ports sc)))))
         svcs.
Proof.
  assert (N0 : (name ++ "-" ++ sn)%string = (name ++ "-" ++ sn ++ "")%string)
    by now rewrite append_empty_r.
  assert (N1 : ((name ++ "-" ++ sn) ++ "-lb")%string = (name ++ "-" ++ sn ++ "-lb")%string).
  { rewrite append_assoc. f_equal. }
  unfold _generate_sidecar_services.
  destruct (nonempty (ports sc)); [|intros E; injection E as <-; constructor].
  intros E. apply bind_ok in E. destruct E as [ext [_ E]].
  destruct ext; injection E as <-.
  - constructor; [|constructor; [|constructor]].
    + exists "port-", "". cbn [svc_name svc_namespace svc_labels svc_selector svc_ports].
      repeat split. exact N0.
    + exists "lb-port-", "-lb".
      cbn [svc_name svc_namespace svc_labels svc_selector svc_ports].
      repeat split. exact N1.
  - constructor; [|constructor].
    exists "port-", "". cbn [svc_name svc_namespace svc_labels svc_selector svc_ports].
    repeat split. exact N0.
Qed.

(** X4: within every Service [generate] returns, the port names differ
    pairwise. *)
Theorem X4_port_names_unique (ns name : string) (config : AppSpec)
    (services : list Service) :
  generate ns name config = Ok services ->
  Forall (fun s => NoDup (map sp_name (svc_ports s))) services.
Proof.
  apply generate_services_forall.
  - intros p. repeat constructor. intros [].
  - intros p. repeat constructor. intros [].
  - repeat constructor. intros [].
  - intros sn sc svcs E. apply sidecar_services_cases in E.
    eapply Forall_impl; [|exact E]. cbn beta.
    intros s [prefix [suffix [_ [_ [_ [_ ->]]]]]]. apply indexed_names_NoDup.
Qed.

(** X5: every Service [generate] returns lies in the generator's
    namespace, selects on the app's name, and carries as labels exactly
    its selector. *)
Theorem X5_services_select_the_app (ns name : string) (config : AppSpec)
    (services : list Service) :
  generate ns name config = Ok services ->
  Forall (fun s => svc_namespace s = ns
                   /\ l_app (svc_selector s) = name
                   /\ svc_labels s = svc_selector s) services.
Proof.
  apply generate_services_forall.
  - intros p. repeat split.
  - intros p. repeat split.
  - repeat split.
  - intros sn sc svcs E. apply sidecar_services_cases in E.
    eapply Forall_impl; [|exact E]. cbn beta.
    intros s [prefix [suffix [_ [N [L [S _]]]]]]. rewrite N, L, S. repeat split.
Qed.


End Service_invariants.

Lemma X4_witness :
  exists services,
    ServiceGenerator.generate "default" "whoami" fixture_app_config = Ok services
    /\ Forall (fun s => NoDup (map sp_name (svc_ports s))) services.
Proof.
  eexists. split.
  - reflexivity.
  - apply (@X4_port_names_unique ascii_builtins "default" "whoami" fixture_app_config).
    reflexivity.
Defined.

Lemma X5_witness :
  exists services,
    ServiceGenerator.generate "default" "whoami" service_types_config = Ok services
    /\ Forall (fun s => svc_namespace s = "default"
                        /\ l_app (svc_selector s) = "whoami"
                        /\ svc_labels s = svc_selector s) services.
Proof.
  eexists. split.
  - reflexivity.
  - apply (@X5_services_select_the_app ascii_builtins "default" "whoami"
             service_types_config).
    reflexivity.
Defined.

(** ** Ingress rules *)

Section More_ingress_properties.
Context `{Builtins}.
Import IngressGenerator.

(** An iteration either leaves the rules alone or appends one rule,
    which backs the Service named after the app. *)
Lemma expose_entry_rules (name : string) (st : Locals) (entry : pyval) :
  rules (expose_entry name st entry) = rules st
  \/ exists r, rules (expose_entry name st entry) = rules st ++ [r]
               /\ r_service r = name.
Proof.
  assert (A : forall st', rules (append_rule name st') = rules st'
                          \/ exists r, rules (append_rule name st') = rules st' ++ [r]
                                       /\ r_service r = name).
  { intros st'. unfold append_rule.
    destruct (bound st') as [[[h p] q]|]; [right | now left].
    eexists. split; reflexivity. }
  destruct entry as [| | |s| |items]; try now left.
  - cbn [expose_entry].
    destruct (startswith "http://" s || startswith "https://" s); [|now left].
    destruct (urlparse s); [|now left].
    match goal with
    | |- context [append_rule name ?x] => destruct (A x) as [E|[r [E R]]]
    end; cbn [rules] in E; [now left | right; now exists r].
  - destruct items as [|kv items]; [now left|].
    cbn [expose_entry].
    destruct (A (expose_items (kv :: items) st)) as [E|[r [E R]]];
      rewrite expose_items_rules in E; [now left | right; now exists r].
Qed.

Lemma fold_expose_rules (name : string) (entries : list pyval) (st : Locals) :
  Forall (fun r => r_service r = name) (rules st) ->
  Forall (fun r => r_service r = name) (rules (fold_left (expose_entry name) entries st))
  /\ (length (rules (fold_left (expose_entry name) entries st))
      <= length (rules st) + length entries)%nat.
Proof.
  revert st. induction entries as [|e entries IH]; intros st F.
  - split; [exact F | cbn; lia].
  - cbn [fold_left length].
    destruct (expose_entry_rules name st e) as [E|[r [E R]]].
    + destruct (IH (expose_entry name st e)) as [F' L]; [now rewrite E|].
      split; [exact F' | rewrite E in L; lia].
    + destruct (IH (expose_entry name st e)) as [F' L].
      * rewrite E. apply Forall_app. split; [exact F | now repeat constructor].
      * split; [exact F'|]. rewrite E, length_app in L. cbn in L. lia.
Qed.

Lemma generated_rules (ns name : string) (config : Spec) (entries : list pyval)
    (i : Ingress) :
  expose config = Some entries ->
  generate ns name config = Some i ->
  ing_name i = name
  /\ ing_namespace i = ns
  /\ ing_rules i <> []
  /\ (length (ing_rules i) <= length entries)%nat
  /\ Forall (fun r => r_service r = name) (ing_rules i).
Proof.
  intros E G. unfold generate in G. rewrite E in G.
  destruct (@fold_expose_rules name entries
              {| bound := None; rules := []; ingress_class_name := VStr "traefik" |})
    as [F L]; [constructor|].
  remember (fold_left (expose_entry name) entries
              {| bound := None; rules := []; ingress_class_name := VStr "traefik" |})
    as st' eqn:S.
  destruct (rules st') as [|r rs] eqn:R; [discriminate|].
  injection G as <-. cbn [ing_name ing_namespace ing_rules rules length] in *.
  split; [reflexivity|]. split; [reflexivity|]. split; [discriminate|].
  split; [exact L | exact F].
Qed.

(** X7: an Ingress, when one is generated, is named after the app, lies
    in the generator's namespace, has at least one rule and at most one
    per [expose] entry, and every rule backs the Service named after the
    app. *)
Theorem X7_ingress_rules (ns name : string) (config : Spec) (entries : list pyval)
    (i : Ingress) :
  expose config = Some entries ->
  generate ns name config = Some i ->
  ing_name i = name
  /\ ing_namespace i = ns
  /\ ing_rules i <> []
  /\ (length (ing_rules i) <= length entries)%nat
  /\ Forall (fun r => r_service r = name) (ing_rules i).
Proof. apply generated_rules. Qed.

(** X8: a mapping-form entry none of whose values is a mapping is not
    skipped once an earlier entry has bound [host], [path] and
    [service_port]: it appends the rule of that earlier entry again.
    Before any entry is accepted it is skipped. *)
Theorem X8_stale_rule_repeated (name : string) (st : Locals)
    (kv : string * pyval) (items : list (string * pyval)) :
  Forall (fun kv' => is_dict (snd kv') = false) (kv :: items) ->
  expose_entry name st (VDict (kv :: items))
  = match bound st with
    | Some hpp => {| bound := bound st;
                     rules := rules st ++ [rule name hpp];
                     ingress_class_name := ingress_class_name st |}
    | None => st
    end.
Proof.
  intros F. cbn [expose_entry].
  assert (E : forall l st', Forall (fun kv' => is_dict (snd kv') = false) l ->
                            expose_items l st' = st').
  { induction l as [|[d v] l IH]; intros st' Fl; [reflexivity|].
    inversion Fl as [|? ? V Fl']; subst. cbn [snd] in V.
    destruct v; try discriminate V; cbn [expose_items]; now apply IH. }
  rewrite (E _ st F). reflexivity.
Qed.

End More_ingress_properties.

Lemma X7_witness :
  exists i,
    IngressGenerator.generate "default" "whoami" three_entries = Some i
    /\ (length (ing_rules i) <= 3)%nat
    /\ Forall (fun r => r_service r = "whoami") (ing_rules i).
Proof.
  eexists. split; [reflexivity|].
  apply (@X7_ingress_rules ascii_builtins "default" "whoami" three_entries _ _
           eq_refl eq_refl).
Defined.

Lemma X8_witness :
  ing_rules_of
    (IngressGenerator.generate "default" "whoami"
       (exposing [VDict [("a.example.com", VDict [("port", VInt 8080)])];
                  VDict [("b.example.com", VStr "8081")]]))
  = [ {| r_host := "a.example.com"; r_path := VStr "/"; r_service := "whoami";
         r_port := VInt 8080 |};
      {| r_host := "a.example.com"; r_path := VStr "/"; r_service := "whoami";
         r_port := VInt 8080 |} ].
Proof.
  unfold IngressGenerator.generate, exposing, expose. cbn [fold_left].
  rewrite (@X8_stale_rule_repeated ascii_builtins "whoami" _
             ("b.example.com", VStr "8081") []).
  - reflexivity.
  - repeat constructor.
Defined.

Section Ingress_backend.
Context `{Builtins}.
Import BaseGenerator ServiceGenerator.


End Ingress_backend.


(** ** Volumes, regeneration and the bundle *)

Section More_generation_properties.
Context `{Builtins}.
Import VolumeGenerator DeploymentGenerator KubeResourceGenerator.

Lemma unique_volumes_fixed (seen : list string) (vs : list Volume) :
  (forall v, In v vs -> ~ In (vol_name v) seen) ->
  NoDup (map vol_name vs) ->
  unique_volumes seen vs = vs.
Proof.
  revert seen. induction vs as [|v vs IH]; intros seen NS ND; [reflexivity|].
  cbn [unique_volumes].
  destruct (existsb (String.eqb (vol_name v)) seen) eqn:E.
  - exfalso. apply existsb_exists in E. destruct E as [x [I E]].
    apply String.eqb_eq in E. subst x. apply (NS v); [now left | exact I].
  - f_equal. inversion ND as [|? ? NI ND']. subst. apply IH; [|exact ND'].
    intros u Iu [E'|S].
    + apply NI. rewrite E'. now apply in_map.
    + apply (NS u); [now right | exact S].
Qed.

Lemma unique_volumes_subset (seen : list string) (vs : list Volume) (v : Volume) :
  In v (unique_volumes seen vs) -> In v vs.
Proof.
  revert seen. induction vs as [|x vs IH]; intros seen I; [destruct I|].
  cbn [unique_volumes] in I.
  destruct (existsb (String.eqb (vol_name x)) seen).
  - right. now apply (IH seen).
  - destruct I as [<-|I]; [now left | right; now apply (IH _ I)].
Qed.

(** X9: de-duplicating twice is de-duplicating once, and de-duplication
    neither drops nor invents a volume name. *)
Theorem X9_unique_volumes_idempotent (vs : list Volume) :
  unique_volumes [] (unique_volumes [] vs) = unique_volumes [] vs
  /\ forall n, In n (map vol_name (unique_volumes [] vs)) <-> In n (map vol_name vs).
Proof.
  split.
  - destruct (unique_volumes_first [] vs) as [ND _].
    apply unique_volumes_fixed; [intros v _ [] | exact ND].
  - intros n. split.
    + intros I. apply in_map_iff in I. destruct I as [v [<- I]].
      apply in_map. now apply unique_volumes_subset in I.
    + intros I. now destruct (unique_volumes_names [] vs n I) as [[]|U].
Qed.






Lemma needs_service_after_inherit (config sc : Spec) :
  ServiceGenerator.needs_service (inherit_volumes config sc)
  = ServiceGenerator.needs_service sc
  /\ ports (inherit_volumes config sc) = ports sc.
Proof.
  unfold inherit_volumes.
  destruct (volumes config), (volumes sc); split; reflexivity.
Qed.

Lemma services_after_inherit (ns name : string) (config : AppSpec) :
  ServiceGenerator.generate ns name (with_inherited_volumes config)
  = ServiceGenerator.generate ns name config.
Proof.
  unfold ServiceGenerator.generate, with_inherited_volumes. cbn [app sidecars].
  assert (S : ServiceGenerator.sidecar_services ns name
                (or_empty (option_map
                             (map (fun sc => (fst sc, inherit_volumes (app config) (snd sc))))
                             (sidecars config)))
              = ServiceGenerator.sidecar_services ns name (or_empty (sidecars config))).
  { destruct (sidecars config) as [scs|]; [|reflexivity]. cbn [option_map or_empty].
    induction scs as [|[sn sc] scs IH]; [reflexivity|].
    cbn [map ServiceGenerator.sidecar_services fst snd]. rewrite IH.
    destruct (needs_service_after_inherit (app config) sc) as [N P].
    rewrite N. unfold ServiceGenerator._generate_sidecar_services. now rewrite P. }
  now rewrite S.
Qed.

Lemma deployment_snd (ns name : string) (config : AppSpec)
    (compose : option ComposeModel) :
  snd (generate ns name config compose) = with_inherited_volumes config.
Proof.
  unfold generate. pose proof (generate_volumes_snd name config) as S.
  destruct (generate_volumes name config) as [v c]. exact S.
Qed.


(** [generate_app] with the app dictionary it leaves made explicit. *)
Lemma generate_app_unfolded (ns : string) (compose : ComposeModel)
    (app_name : string) (app_config : AppSpec) :
  generate_app ns compose app_name app_config
  = (svc_ing <-
       (if ServiceGenerator.needs_service (app app_config) then
          services <- ServiceGenerator.generate ns app_name app_config ;;
          Ok (services,
              match expose (app app_config), service_for_ingress services with
              | Some _, Some _ =>
                  match IngressGenerator.generate ns app_name (app app_config) with
                  | Some i => [i]
                  | None => []
                  end
              | _, _ => []
              end)
        else Ok ([], [])) ;;
     Ok ({| res_configmaps := configmaps (fst (generate ns app_name app_config
                                                 (Some compose)));
            res_pvcs := [];
            res_deployments := deployments (fst (generate ns app_name app_config
                                                   (Some compose)));
            res_services := fst svc_ing;
            res_ingress := snd svc_ing |},
         with_inherited_volumes app_config)).
Proof.
  unfold generate_app.
  pose proof (deployment_snd ns app_name app_config (Some compose)) as S.
  destruct (generate ns app_name app_config (Some compose)) as [res c']. cbn [fst snd] in *.
  subst c'. rewrite services_after_inherit. reflexivity.
Qed.




End More_generation_properties.


Section Bundle_properties.
Context `{Builtins}.
Import VolumeGenerator DeploymentGenerator KubeResourceGenerator.

Lemma of_kind_pvcs_services_ingress (r : Resources) :
  of_kind "pvcs" (to_bundle r) = map MPVC (res_pvcs r)
  /\ of_kind "services" (to_bundle r) = map MService (res_services r)
  /\ of_kind "ingress" (to_bundle r) = map MIngress (res_ingress r).
Proof.
  unfold of_kind, to_bundle.
  destruct r as [cms pvcs deps svcs ings].
  cbn [res_configmaps res_pvcs res_deployments res_services res_ingress].
  destruct cms, pvcs, deps, svcs, ings; repeat split; reflexivity.
Qed.

Lemma generate_all_resources (ns : string) (compose compose' : ComposeModel) (b : Bundle) :
  generate_all ns compose = Ok (b, compose') ->
  exists r l',
    b = to_bundle r
    /\ generate_apps ns compose (apps compose)
         {| res_configmaps := [];
            res_pvcs := map (fun nv => generate_pvc ns (fst nv) (snd nv))
                          (cm_volumes compose);
            res_deployments := []; res_services := []; res_ingress := [] |}
       = Ok (r, l').
Proof.
  unfold generate_all, generate_resources. intros G.
  apply bind_ok in G. destruct G as [[r m] [G E]].
  apply bind_ok in G. destruct G as [[r' l'] [G E']].
  injection E' as <- <-. injection E as <- _. now exists r', l'.
Qed.

(** X11: the bundle holds one PersistentVolumeClaim per entry of the
    model's [volumes], named after it, in the generator's namespace and
    requesting the entry's [size] or "1Gi", whether or not an app mounts
    the volume. *)
Theorem X11_one_pvc_per_volume (ns : string) (compose compose' : ComposeModel)
    (b : Bundle) :
  generate_all ns compose = Ok (b, compose') ->
  of_kind "pvcs" b
  = map (fun nv => MPVC {| pvc_name := fst nv;
                           pvc_namespace := ns;
                           pvc_storage := match size (snd nv) with
                                          | Some s => s
                                          | None => VStr "1Gi"
                                          end |})
      (cm_volumes compose).
Proof.
  intros G. destruct (generate_all_resources _ _ G) as [r [l' [-> A]]].
  destruct (generate_apps_resources _ _ _ _ A) as [_ [P _]].
  destruct (of_kind_pvcs_services_ingress r) as [B _].
  rewrite B, P. cbn [res_pvcs]. now rewrite map_map.
Qed.

Lemma Forall_map_tag {A : Type} (f : A -> Manifest) (P : Manifest -> Prop) (l : list A) :
  (forall a, P (f a)) -> Forall P (map f l).
Proof. intros F. induction l; constructor; auto. Qed.

(** X12: a generated bundle has pairwise distinct kind tags, all among the
    five that apply and delete act on, no tag with an empty list, and
    under each tag only manifests of that kind. *)
Theorem X12_generated_bundle_is_well_formed (ns : string)
    (compose compose' : ComposeModel) (b : Bundle) :
  generate_all ns compose = Ok (b, compose') ->
  NoDup (keys b)
  /\ Forall (fun kv => known kv = true /\ snd kv <> [] /\ tagged kv) b.
Proof.
  intros G. destruct (generate_all_resources _ _ G) as [r [l' [-> _]]].
  unfold to_bundle. destruct r as [cms pvcs deps svcs ings].
  cbn [res_configmaps res_pvcs res_deployments res_services res_ingress].
  assert (T1 : forall l, tagged ("configmaps", map MConfigMap l))
    by (intros l; apply Forall_map_tag; intros a; exact I).
  assert (T2 : forall l, tagged ("pvcs", map MPVC l))
    by (intros l; apply Forall_map_tag; intros a; exact I).
  assert (T3 : forall l, tagged ("deployments", map MDeployment l))
    by (intros l; apply Forall_map_tag; intros a; exact I).
  assert (T4 : forall l, tagged ("services", map MService l))
    by (intros l; apply Forall_map_tag; intros a; exact I).
  assert (T5 : forall l, tagged ("ingress", map MIngress l))
    by (intros l; apply Forall_map_tag; intros a; exact I).
  split.
  - destruct cms, pvcs, deps, svcs, ings; cbn;
      repeat (constructor; [cbn; intuition discriminate|]); constructor.
  - apply Forall_forall. intros kv I'. apply filter_In in I'. destruct I' as [I' N].
    assert (NE : snd kv <> []) by (destruct (snd kv); [discriminate N | discriminate]).
    cbn [In] in I'.
    destruct I' as [<-|[<-|[<-|[<-|[<-|[]]]]]];
      (split; [reflexivity | split; [exact NE|]]); auto.
Qed.

End Bundle_properties.

Lemma X11_witness :
  exists b,
    of_kind "pvcs" b
    = [MPVC {| pvc_name := "data"; pvc_namespace := "default";
               pvc_storage := VStr "1Gi" |}].
Proof.
  eexists.
  eapply (@X11_one_pvc_per_volume ascii_builtins "default" referring_model).
  reflexivity.
Defined.

Lemma X12_witness :
  exists b,
    NoDup (keys b)
    /\ Forall (fun kv => known kv = true /\ snd kv <> [] /\ tagged kv) b
    /\ keys b = ["configmaps"; "deployments"].
Proof.
  eexists. rewrite <- and_assoc. split.
  - eapply (@X12_generated_bundle_is_well_formed ascii_builtins "default" two_apps).
    reflexivity.
  - reflexivity.
Defined.

Section Service_gate.
Context `{Builtins}.
Import KubeResourceGenerator.

Lemma generate_apps_without_services (ns : string) (compose : ComposeModel)
    (l : list (string * AppSpec)) (acc : Resources) :
  Forall (fun na => ServiceGenerator.needs_service (app (snd na)) = false) l ->
  exists r l',
    generate_apps ns compose l acc = Ok (r, l')
    /\ res_services r = res_services acc
    /\ res_ingress r = res_ingress acc.
Proof.
  intros F. revert acc. induction F as [|[n a] l N _ IH]; intros acc.
  - exists acc, []. repeat split.
  - cbn [generate_apps]. rewrite generate_app_unfolded. cbn [snd] in N. rewrite N.
    cbn [bind fst snd].
    destruct (IH (extend acc
                    {| res_configmaps :=
                         configmaps (fst (DeploymentGenerator.generate ns n a (Some compose)));
                       res_pvcs := [];
                       res_deployments :=
                         deployments (fst (DeploymentGenerator.generate ns n a (Some compose)));
                       res_services := []; res_ingress := [] |}))
      as [r [l' [G [S I]]]].
    rewrite G. cbn [bind fst snd]. eexists. eexists. split; [reflexivity|].
    rewrite S, I. unfold extend. cbn [res_services res_ingress].
    now rewrite !app_nil_r.
Qed.

(** X13: when no app declares [ports] or [expose], generation returns and
    the bundle holds no Service and no Ingress, whatever ports the
    sidecars declare: the Services of sidecars are generated only for
    apps that need a Service themselves. *)
Theorem X13_sidecar_services_need_an_app_service (ns : string) (compose : ComposeModel) :
  Forall (fun na => ServiceGenerator.needs_service (app (snd na)) = false)
    (apps compose) ->
  exists b compose',
    generate_all ns compose = Ok (b, compose')
    /\ of_kind "services" b = []
    /\ of_kind "ingress" b = [].
Proof.
  intros F. unfold generate_all, generate_resources.
  destruct (generate_apps_without_services ns compose
              {| res_configmaps := [];
                 res_pvcs := map (fun nv => VolumeGenerator.generate_pvc ns (fst nv) (snd nv))
                               (cm_volumes compose);
                 res_deployments := []; res_services := []; res_ingress := [] |} F)
    as [r [l' [G [S I]]]].
  rewrite G. cbn [bind fst snd]. eexists. eexists. split; [reflexivity|].
  destruct (of_kind_pvcs_services_ingress r) as [_ [BS BI]].
  rewrite BS, BI, S, I. split; reflexivity.
Qed.

End Service_gate.

Lemma X13_witness :
  exists b compose',
    KubeResourceGenerator.generate_all "default" sidecar_with_port = Ok (b, compose')
    /\ of_kind "services" b = []
    /\ of_kind "ingress" b = [].
Proof.
  apply (@X13_sidecar_services_need_an_app_service ascii_builtins "default"
           sidecar_with_port).
  repeat constructor.
Defined.

Section Inherited_mounts.
Context `{Builtins}.
Import DeploymentGenerator.

Lemma mount_paths_owner (N N' : string) (l : list (nat * pyval)) :
  map vm_mountPath (flat_map (volume_mount N) l)
  = map vm_mountPath (flat_map (volume_mount N') l).
Proof.
  induction l as [|[i v] l IH]; [reflexivity|].
  cbn [flat_map]. rewrite !map_app, IH. f_equal.
  unfold volume_mount. cbn [fst snd].
  destruct v as [| | |s| |]; try reflexivity.
  destruct (split colon s) as [|src [|mp rest]]; reflexivity.
Qed.

(** X14: the container of a sidecar that declares neither [volumes] nor
    [volumesFrom] mounts exactly the paths the app's container mounts,
    in the same order. *)
Theorem X14_inheriting_sidecar_mounts_the_same_paths (name sidecar_name : string)
    (app_config sidecar_config : Spec) :
  volumes sidecar_config = None ->
  volumesFrom sidecar_config = None ->
  map vm_mountPath
    (c_volumeMounts (_create_container (name ++ "-" ++ sidecar_name)
                       (_merge_sidecar_config app_config sidecar_config)))
  = map vm_mountPath (c_volumeMounts (_create_container name app_config)).
Proof.
  intros V F. unfold _create_container, _merge_sidecar_config, inherit.
  cbn [c_volumeMounts volumes volumesFrom]. rewrite V, F.
  rewrite !map_app. f_equal. apply mount_paths_owner.
Qed.

End Inherited_mounts.

Lemma X14_witness :
  map vm_mountPath
    (c_volumeMounts (DeploymentGenerator._create_container "whoami-metrics"
                       (DeploymentGenerator._merge_sidecar_config (app inheriting_app)
                          (spec_with_ports None))))
  = [VStr "/container/path"].
Proof.
  apply (@X14_inheriting_sidecar_mounts_the_same_paths ascii_builtins "whoami" "metrics"
           (app inheriting_app) (spec_with_ports None)); reflexivity.
Defined.

(** ** Reconciliation: failures, unknown tags and composition *)

Section More_reconciliation_properties.
Context {St : Type} `{Cluster St}.
Import ResourceManager.
Local Abbreviation World := (@ResourceManager.World St).

Lemma for_unknown_tag (ns rt : string) (ms : list Manifest) (w : World) :
  kind_of rt = None -> for_ ms (apply_resource ns rt) w = (Ok tt, w).
Proof.
  intros K. revert w. induction ms as [|m ms IH]; intros w; [reflexivity|].
  assert (U : apply_resource ns rt m w = (Ok tt, w)).
  { unfold apply_resource, try_wrap. rewrite K. reflexivity. }
  cbn [for_]. unfold bindM. rewrite U. apply IH.
Qed.

Lemma get_known (rt : string) (b : Bundle) :
  kind_of rt <> None -> get rt (filter known b) = get rt b.
Proof.
  intros K. induction b as [|[k v] b IH]; [reflexivity|].
  cbn [filter get]. unfold known at 1. cbn [fst].
  destruct (kind_of k) eqn:E; cbn [get].
  - now rewrite IH.
  - destruct (String.eqb_spec rt k) as [->|_]; [congruence | exact IH].
Qed.

(** X15: entries under a tag other than configmaps, pvcs, services,
    deployments and ingress are passed over by [apply_resources] and by
    [delete_resources]: no call is placed for them and the run is that of
    the bundle without them. *)
Theorem X15_unknown_tags_are_ignored (ns : string) (resources : Bundle) (w : World) :
  apply_resources ns resources w = apply_resources ns (filter known resources) w
  /\ delete_resources ns resources w = delete_resources ns (filter known resources) w.
Proof.
  split.
  - unfold apply_resources. revert w.
    induction resources as [|[rt ms] b IH]; intros w; [reflexivity|].
    cbn [filter]. unfold known at 1. cbn [fst].
    destruct (kind_of rt) eqn:K.
    + cbn [for_ fst snd]. unfold bindM.
      destruct (for_ ms (apply_resource ns rt) w) as [[[]|e] w']; [apply IH | reflexivity].
    + cbn [for_ fst snd]. unfold bindM. rewrite (@for_unknown_tag ns rt ms w K). apply IH.
  - unfold delete_resources, resource_types. cbn [for_].
    rewrite !get_known by (cbn; discriminate). reflexivity.
Qed.

(** X16: a read refused with a status other than 404 ends the
    application of the resource there: nothing is patched or created,
    and the failure is raised wrapped with the kind tag and the name. *)
Theorem X16_read_failure_places_no_write (ns rt : string) (k : Kind) (m : Manifest)
    (w : World) (status : Z) (reason : string) (s' : St) :
  kind_of rt = Some k ->
  respond (cluster w) (read k (metadata_name m) ns) = (Failure status reason, s') ->
  Z.eqb status 404 = false ->
  apply_resource ns rt m w
  = (Raise (Exception ("Failed to apply " ++ rt ++ " '" ++ metadata_name m ++ "': "
                       ++ api_str status reason)),
     {| cluster := s'; calls := calls w ++ [read k (metadata_name m) ns] |}).
Proof.
  intros K R N.
  unfold apply_resource, try_wrap, read_patch_or_create, try_api, api, bindM, call.
  rewrite K, R. cbn. rewrite N. reflexivity.
Qed.

(** X17: when the read succeeds and the patch answers 404, the resource
    is created after all; the outcome is that of the create, a failure
    of which is raised wrapped. *)
Theorem X17_patch_404_falls_back_to_create (ns rt : string) (k : Kind) (m : Manifest)
    (w : World) (reason : string) (s1 s2 : St) :
  kind_of rt = Some k ->
  respond (cluster w) (read k (metadata_name m) ns) = (Success, s1) ->
  respond s1 (patch k (metadata_name m) ns m) = (Failure 404 reason, s2) ->
  apply_resource ns rt m w
  = let log := calls w ++ [read k (metadata_name m) ns;
                           patch k (metadata_name m) ns m;
                           create k ns m] in
    match respond s2 (create k ns m) with
    | (Success, s3) => (Ok tt, {| cluster := s3; calls := log |})
    | (Failure status reason', s3) =>
        (Raise (Exception ("Failed to apply " ++ rt ++ " '" ++ metadata_name m ++ "': "
                           ++ api_str status reason')),
         {| cluster := s3; calls := log |})
    end.
Proof.
  intros K R P.
  unfold apply_resource, try_wrap, read_patch_or_create, try_api, api, bindM, call.
  rewrite K, R. cbn. rewrite P. cbn.
  destruct (respond s2 (create k ns m)) as [[|status reason'] s3]; cbn;
    rewrite <- !app_assoc; reflexivity.
Qed.

(** X18: applying a bundle made of two parts applies the first and, when
    that returns, the second on the cluster as the first left it; a
    failure in the first part ends the run with the calls placed so far,
    the second part untouched. *)
Theorem X18_apply_of_two_parts (ns : string) (first second : Bundle) (w : World) :
  apply_resources ns (first ++ second) w
  = match apply_resources ns first w with
    | (Ok _, w') => apply_resources ns second w'
    | (Raise e, w') => (Raise e, w')
    end.
Proof. unfold apply_resources. rewrite for_app. reflexivity. Qed.

End More_reconciliation_properties.

Lemma X16_witness :
  @ResourceManager.apply_resource _ failing_reads "default" "pvcs" sample_pvc
    {| ResourceManager.cluster := []; ResourceManager.calls := [] |}
  = (Raise (Exception
              "Failed to apply pvcs 'data': (500) Reason: Internal Server Error"),
     {| ResourceManager.cluster := [];
        ResourceManager.calls := [read KPVC "data" "default"] |}).
Proof.
  apply (@X16_read_failure_places_no_write _ failing_reads "default" "pvcs" KPVC
           sample_pvc {| ResourceManager.cluster := []; ResourceManager.calls := [] |}
           500 "Internal Server Error" []); reflexivity.
Defined.

Lemma X17_witness :
  @ResourceManager.apply_resource _ vanishing "default" "pvcs" sample_pvc
    {| ResourceManager.cluster := []; ResourceManager.calls := [] |}
  = (Ok tt,
     {| ResourceManager.cluster := [(KPVC, "data")];
        ResourceManager.calls := [read KPVC "data" "default";
                                  patch KPVC "data" "default" sample_pvc;
                                  create KPVC "default" sample_pvc] |}).
Proof.
  apply (@X17_patch_404_falls_back_to_create _ vanishing "default" "pvcs" KPVC
           sample_pvc {| ResourceManager.cluster := []; ResourceManager.calls := [] |}
           "Not Found" [] []); reflexivity.
Defined.

(** ** Reconciliation: delete on a cluster that holds what it is given *)

Section Delete_round_trip.
Import ResourceManager Ideal_cluster.
Local Abbreviation World := (@ResourceManager.World (list (Kind * string))).

Lemma target_eqb_sym (a b : Kind * string) : target_eqb a b = target_eqb b a.
Proof.
  destruct (target_eqb a b) eqn:E; symmetry.
  - apply target_eqb_eq in E. subst. now apply target_eqb_eq.
  - destruct (target_eqb b a) eqn:E'; [|reflexivity].
    apply target_eqb_eq in E'. subst.
    assert (target_eqb a a = true) by now apply target_eqb_eq. congruence.
Qed.

Lemma filter_absent (s : list (Kind * string)) (t : Kind * string) :
  holds s t = false -> filter (fun x => negb (target_eqb t x)) s = s.
Proof.
  unfold holds. induction s as [|x s IH]; [reflexivity|]. cbn.
  rewrite (target_eqb_sym t x).
  destruct (target_eqb x t); [discriminate|]. cbn. intros E. now rewrite IH.
Qed.

(** What a planned delete leaves of the cluster, held or not. *)
Lemma answer_delete (s : list (Kind * string)) (k : Kind) (name ns : string) :
  snd (answer s (delete k name ns)) = filter (fun x => negb (target_eqb (k, name) x)) s
  /\ (fst (answer s (delete k name ns)) = Success
      \/ fst (answer s (delete k name ns)) = Failure 404 "Not Found").
Proof.
  cbn [answer]. destruct (holds s (k, name)) eqn:E; cbn [fst snd].
  - split; [reflexivity | now left].
  - split; [now rewrite filter_absent | now right].
Qed.

Lemma filter_filter {A : Type} (f g : A -> bool) (l : list A) :
  filter f (filter g l) = filter (fun x => g x && f x) l.
Proof.
  induction l as [|x l IH]; [reflexivity|]. cbn.
  destruct (g x); cbn; [destruct (f x); now rewrite IH | exact IH].
Qed.

Lemma delete_in_order_ideal (ns : string) (plan : list (string * Kind * Manifest))
    (s : list (Kind * string)) (log : list Call) :
  delete_in_order ns plan s log
  = (Ok tt,
     {| cluster := filter (fun t => negb (holds (map delete_target plan) t)) s;
        calls := log ++ map (delete_call ns) plan |}).
Proof.
  revert s log. induction plan as [|[[rt k] m] plan IH]; intros s log.
  - cbn. rewrite app_nil_r. f_equal. f_equal.
    induction s as [|x s IHs]; [reflexivity | cbn; now rewrite <- IHs].
  - cbn [delete_in_order map]. unfold delete_target at 1, delete_call at 1.
    cbn [fst snd].
    destruct (answer_delete s k (metadata_name m) ns) as [S R].
    change (respond s (delete k (metadata_name m) ns))
      with (answer s (delete k (metadata_name m) ns)).
    destruct (answer s (delete k (metadata_name m) ns)) as [r s'].
    cbn [fst snd] in S, R. subst s'.
    assert (E : delete_in_order ns plan
                  (filter (fun x => negb (target_eqb (k, metadata_name m) x)) s)
                  (log ++ [delete k (metadata_name m) ns])
                = (Ok tt,
                   {| cluster := filter (fun t => negb (holds ((k, metadata_name m)
                                                               :: map delete_target plan) t)) s;
                      calls := log ++ delete k (metadata_name m) ns
                                      :: map (delete_call ns) plan |})).
    { rewrite IH, filter_filter, <- app_assoc. f_equal. f_equal.
      apply filter_ext. intros t. unfold holds.
      cbn [existsb]. rewrite (target_eqb_sym t). now rewrite negb_orb. }
    destruct R as [->| ->]; cbn [Z.eqb]; exact E.
Qed.

Lemma delete_resources_ideal (ns : string) (resources : Bundle)
    (s : list (Kind * string)) (log : list Call) :
  delete_resources ns resources {| cluster := s; calls := log |}
  = (Ok tt,
     {| cluster := filter (fun t => negb (holds (map delete_target
                                                   (delete_plan resources)) t)) s;
        calls := log ++ map (delete_call ns) (delete_plan resources) |}).
Proof.
  rewrite delete_resources_flat, for_delete_in_order by planned_kinds.
  apply delete_in_order_ideal.
Qed.

(** X19: on a cluster that holds resources by kind and name,
    [delete_resources] always returns; it places exactly one delete per
    manifest the bundle lists under ingress, deployments, services,
    configmaps and pvcs, in that order and through the API family of
    the kind, held or not, and leaves exactly the resources these
    deletes do not name. *)
Theorem X19_delete_removes_the_named_resources (ns : string) (resources : Bundle)
    (s : list (Kind * string)) (log : list Call) :
  delete_resources ns resources {| cluster := s; calls := log |}
  = (Ok tt,
     {| cluster := filter (fun t => negb (holds (map delete_target
                                                   (delete_plan resources)) t)) s;
        calls := log ++ map (delete_call ns) (delete_plan resources) |}).
Proof.
  rewrite delete_resources_flat, for_delete_in_order by planned_kinds.
  apply delete_in_order_ideal.
Qed.

Lemma get_In {V : Type} (k : string) (v : V) (d : list (string * V)) :
  get k d = Some v -> In (k, v) d.
Proof.
  induction d as [|[k' v'] d IH]; [discriminate|]. cbn.
  destruct (String.eqb_spec k k') as [->|_].
  - intros E. injection E as ->. now left.
  - intros E. right. now apply IH.
Qed.

Lemma In_get {V : Type} (k : string) (v : V) (d : list (string * V)) :
  NoDup (keys d) -> In (k, v) d -> get k d = Some v.
Proof.
  induction d as [|[k' v'] d IH]; intros ND I; [destruct I|].
  cbn. inversion ND as [|? ? NI ND']. subst.
  destruct I as [E|I].
  - injection E as -> ->. now rewrite String.eqb_refl.
  - destruct (String.eqb_spec k k') as [->|_]; [|now apply IH].
    exfalso. apply NI. unfold keys. apply in_map_iff. now exists (k', v).
Qed.

Lemma kind_of_known_tag (rt : string) (k : Kind) :
  kind_of rt = Some k -> In rt ["ingress"; "deployments"; "services"; "configmaps"; "pvcs"].
Proof.
  unfold kind_of.
  destruct (String.eqb_spec rt "configmaps") as [->|_]; [cbn; tauto|].
  destruct (String.eqb_spec rt "pvcs") as [->|_]; [cbn; tauto|].
  destruct (String.eqb_spec rt "services") as [->|_]; [cbn; tauto|].
  destruct (String.eqb_spec rt "deployments") as [->|_]; [cbn; tauto|].
  destruct (String.eqb_spec rt "ingress") as [->|_]; [cbn; tauto | discriminate].
Qed.

Lemma delete_order_kind_of (rt : string) (k : Kind) :
  In (rt, k) delete_order <-> kind_of rt = Some k.
Proof.
  split.
  - intros I. cbn in I.
    repeat (destruct I as [E|I]; [injection E as <- <-; reflexivity|]). destruct I.
  - intros K. pose proof (@kind_of_known_tag rt k K) as T. cbn in T.
    repeat (destruct T as [<-|T]; [injection K as <-; cbn; tauto|]). destruct T.
Qed.

(** The deletes planned for a bundle aim at the targets its application
    aims at. *)
Lemma delete_targets_are_apply_targets (resources : Bundle) (t : Kind * string) :
  NoDup (keys resources) ->
  (In t (map delete_target (delete_plan resources))
   <-> In t (map target (apply_plan resources))).
Proof.
  intros ND. split.
  - intros I. apply in_map_iff in I. destruct I as [[[rt k] m] [T P]].
    unfold delete_plan in P. apply in_flat_map in P. destruct P as [[rt' k'] [O P]].
    apply in_map_iff in P. destruct P as [m' [E M]]. injection E as <- <- <-.
    unfold delete_target in T. cbn [fst snd] in *. subst t.
    apply delete_order_kind_of in O.
    destruct (get rt' resources) as [l|] eqn:G; [|destruct M]. cbn [or_empty] in M.
    apply get_In in G. apply in_map_iff. exists (k', m'). split; [reflexivity|].
    unfold apply_plan. apply in_flat_map. exists (rt', l). split; [exact G|].
    cbn [fst snd]. rewrite O. now apply in_map.
  - intros I. apply in_map_iff in I. destruct I as [[k m] [<- P]].
    unfold apply_plan in P. apply in_flat_map in P. destruct P as [[rt l] [B P]].
    cbn [fst snd] in P. destruct (kind_of rt) as [k'|] eqn:K; [|destruct P].
    apply in_map_iff in P. destruct P as [m' [E M]]. injection E as <- <-.
    apply in_map_iff. exists (rt, k', m'). split; [reflexivity|].
    unfold delete_plan. apply in_flat_map. exists (rt, k').
    split; [now apply delete_order_kind_of|]. cbn [fst].
    rewrite (@In_get _ rt l resources ND B). cbn [or_empty]. now apply in_map.
Qed.

Lemma filter_app_keep {A : Type} (f : A -> bool) (keep drop : list A) :
  (forall x, In x keep -> f x = true) ->
  (forall x, In x drop -> f x = false) ->
  filter f (keep ++ drop) = keep.
Proof.
  intros K D. rewrite filter_app.
  assert (E1 : filter f keep = keep).
  { clear D. induction keep as [|x l IH]; [reflexivity|]. cbn.
    rewrite (K x) by now left. f_equal. apply IH. intros y I. apply K. now right. }
  assert (E2 : filter f drop = []).
  { clear K E1. induction drop as [|x l IH]; [reflexivity|]. cbn.
    rewrite (D x) by now left. apply IH. intros y I. apply D. now right. }
  now rewrite E1, E2, app_nil_r.
Qed.

(** X20: applying a generated-style bundle (distinct known tags, distinct
    targets) to a cluster that holds none of its targets and then
    deleting the same bundle leaves the cluster as it was before. *)
Theorem X20_apply_then_delete_restores_the_cluster (ns : string) (resources : Bundle)
    (s : list (Kind * string)) :
  NoDup (keys resources) ->
  NoDup (map target (apply_plan resources)) ->
  (forall t, In t (map target (apply_plan resources)) -> ~ In t s) ->
  let (r1, w1) := apply_resources ns resources {| cluster := s; calls := [] |} in
  let (r2, w2) := delete_resources ns resources w1 in
  r1 = Ok tt /\ r2 = Ok tt /\ cluster w2 = s.
Proof.
  intros NK ND A.
  rewrite (@apply_resources_absent ns resources {| cluster := s; calls := [] |} ND A).
  cbn [cluster calls]. rewrite delete_resources_ideal.
  cbn [cluster]. repeat split.
  apply filter_app_keep.
  - intros t I. apply negb_true_iff. apply holds_absent. intros D.
    apply (@delete_targets_are_apply_targets resources t NK) in D. now apply (A t).
  - intros t I. apply negb_false_iff. apply holds_In.
    now apply (@delete_targets_are_apply_targets resources t NK).
Qed.

End Delete_round_trip.

Lemma X19_witness :
  ResourceManager.delete_resources "default"
    [("pvcs", [sample_pvc]); ("services", [sample_service]);
     ("ingress", [sample_ingress])]
    {| ResourceManager.cluster := [(KPVC, "data"); (KService, "other"); (KIngress, "whoami")];
       ResourceManager.calls := [] |}
  = (Ok tt,
     {| ResourceManager.cluster := [(KService, "other")];
        ResourceManager.calls := [delete KIngress "whoami" "default";
                                  delete KService "whoami-ingress" "default";
                                  delete KPVC "data" "default"] |}).
Proof.
  exact (X19_delete_removes_the_named_resources "default"
           [("pvcs", [sample_pvc]); ("services", [sample_service]);
            ("ingress", [sample_ingress])]
           [(KPVC, "data"); (KService, "other"); (KIngress, "whoami")] []).
Defined.

Lemma X20_witness :
  let (r1, w1) :=
    ResourceManager.apply_resources "default"
      [("pvcs", [sample_pvc]); ("ingress", [sample_ingress])]
      {| ResourceManager.cluster := [(KService, "other")]; ResourceManager.calls := [] |} in
  let (r2, w2) :=
    ResourceManager.delete_resources "default"
      [("pvcs", [sample_pvc]); ("ingress", [sample_ingress])] w1 in
  r1 = Ok tt /\ r2 = Ok tt /\ ResourceManager.cluster w2 = [(KService, "other")].
Proof.
  apply (@X20_apply_then_delete_restores_the_cluster "default"
           [("pvcs", [sample_pvc]); ("ingress", [sample_ingress])]
           [(KService, "other")]).
  - repeat constructor; simpl; intuition discriminate.
  - repeat constructor; simpl; intuition discriminate.
  - intros t [<-|[<-|[]]] [E|[]]; discriminate.
Defined.

(** ** Parsing: validation of the model and against the cluster *)

Section Parse_properties.
Import ComposeValidator KubernetesResourceValidator ComposeParser.

Lemma for_each_ok {A : Type} (body : A -> result unit) (xs : list A) :
  for_each body xs = Ok tt <-> forall x, In x xs -> body x = Ok tt.
Proof.
  induction xs as [|x xs IH]; cbn [for_each].
  - split; [intros _ x [] | reflexivity].
  - destruct (body x) as [[]|e] eqn:B; cbn [bind].
    + rewrite IH. split.
      * intros F y [<-|I]; [exact B | now apply F].
      * intros F y I. apply F. now right.
    + split; [discriminate|]. intros F.
      specialize (F x (or_introl eq_refl)). congruence.
Qed.

Lemma for_each_raise {A : Type} (body : A -> result unit) (xs : list A) (e : exn) :
  for_each body xs = Raise e -> exists x, In x xs /\ body x = Raise e.
Proof.
  induction xs as [|x xs IH]; cbn [for_each]; [discriminate|].
  destruct (body x) as [[]|e'] eqn:B; cbn [bind].
  - intros R. destruct (IH R) as [y [I E]]. exists y. split; [now right | exact E].
  - intros R. injection R as ->. exists x. split; [now left | exact B].
Qed.

Lemma validate_one_ok (c : CoreV1) (ns : string) (k : ExternalKind) (n : string) :
  validate_one c ns k n = Ok tt <-> c k n ns = Success.
Proof.
  unfold validate_one. destruct (c k n ns) as [|status reason].
  - tauto.
  - split; [|discriminate]. destruct (Z.eqb status 404); discriminate.
Qed.

Lemma validate_one_raise (c : CoreV1) (ns : string) (k : ExternalKind) (n : string)
    (e : exn) :
  validate_one c ns k n = Raise e ->
  (exists reason, c k n ns = Failure 404 reason
                  /\ e = ValueError (not_found_msg k n ns))
  \/ (exists status reason, c k n ns = Failure status reason
                            /\ status <> 404%Z /\ e = ApiException status reason).
Proof.
  unfold validate_one. destruct (c k n ns) as [|status reason]; [discriminate|].
  destruct (Z.eqb_spec status 404) as [->|N]; intros R; injection R as <-.
  - left. now exists reason.
  - right. now exists status, reason.
Qed.

Lemma validate_external_resources_ok (c : CoreV1) (ns : string) (cfgs secs : list string) :
  validate_external_resources (Some c) ns cfgs secs = Ok tt
  <-> (forall n, In n cfgs -> c ExtConfigMap n ns = Success)
      /\ (forall n, In n secs -> c ExtSecret n ns = Success).
Proof.
  unfold validate_external_resources, _validate_configs, _validate_secrets.
  destruct (for_each (validate_one c ns ExtConfigMap) cfgs) as [[]|e] eqn:C; cbn [bind].
  - rewrite for_each_ok in C. rewrite for_each_ok. split.
    + intros S. split; intros n I; apply validate_one_ok; [now apply C | now apply S].
    + intros [_ S] n I. apply validate_one_ok. now apply S.
  - split; [discriminate|]. intros [S _].
    assert (O : for_each (validate_one c ns ExtConfigMap) cfgs = Ok tt).
    { apply for_each_ok. intros n I. apply validate_one_ok. now apply S. }
    congruence.
Qed.

(** X21: with a client, the check against the cluster returns exactly
    when every ConfigMap and every Secret it is given reads
    successfully; without a client it returns whatever it is given. *)
Theorem X21_cluster_validation_returns (ns : string) (cfgs secs : list string) :
  validate_external_resources None ns cfgs secs = Ok tt
  /\ forall c : CoreV1,
       validate_external_resources (Some c) ns cfgs secs = Ok tt
       <-> (forall n, In n cfgs -> c ExtConfigMap n ns = Success)
           /\ (forall n, In n secs -> c ExtSecret n ns = Success).
Proof.
  split; [reflexivity|]. intros c. apply validate_external_resources_ok.
Qed.

(** X22: a failure of the check against the cluster comes from one of
    the names it was given: a [ValueError] naming the resource and the
    namespace when the read answered 404, the [ApiException] of the read
    itself for any other status. *)
Theorem X22_cluster_validation_failures (core_v1 : option CoreV1) (ns : string)
    (cfgs secs : list string) (e : exn) :
  validate_external_resources core_v1 ns cfgs secs = Raise e ->
  exists c k n,
    core_v1 = Some c
    /\ In n (match k with ExtConfigMap => cfgs | ExtSecret => secs end)
    /\ ((exists reason, c k n ns = Failure 404 reason
                        /\ e = ValueError (not_found_msg k n ns))
        \/ (exists status reason, c k n ns = Failure status reason
                                  /\ status <> 404%Z /\ e = ApiException status reason)).
Proof.
  unfold validate_external_resources, _validate_configs, _validate_secrets.
  destruct core_v1 as [c|]; [|discriminate].
  destruct (for_each (validate_one c ns ExtConfigMap) cfgs) as [[]|e'] eqn:C; cbn [bind].
  - intros R. apply for_each_raise in R. destruct R as [n [I R]].
    exists c, ExtSecret, n. repeat split; [exact I|]. now apply validate_one_raise.
  - intros R. injection R as ->. apply for_each_raise in C. destruct C as [n [I R]].
    exists c, ExtConfigMap, n. repeat split; [exact I|]. now apply validate_one_raise.
Qed.

Lemma mem_In (x : string) (s : list string) : mem x s = true <-> In x s.
Proof.
  unfold mem. rewrite existsb_exists. split.
  - intros [y [I E]]. apply String.eqb_eq in E. now subst.
  - intros I. exists x. split; [exact I | apply String.eqb_refl].
Qed.

Lemma external_config_listed (cfgs : list (string * ConfigSpec)) (name : string)
    (c : ConfigSpec) :
  get name cfgs = Some c -> external (cfg_external c) = true ->
  mem name (_get_external_configs cfgs) = true.
Proof.
  intros G E. apply mem_In. unfold _get_external_configs.
  apply in_map_iff. exists (name, c). split; [reflexivity|].
  apply filter_In. split; [|exact E].
  clear E. induction cfgs as [|[k v] cfgs IH]; [discriminate|].
  cbn in G. destruct (String.eqb_spec name k) as [->|_].
  - injection G as ->. now left.
  - right. now apply IH.
Qed.

(** X23: against the set of external configs [parse] computes from
    [configs], a config reference is rejected only when the name is not
    a key of [configs]; the failure about a config marked external and
    not found among the external configs cannot occur. *)
Theorem X23_external_config_is_always_listed (config_name app_name : string)
    (cfgs : list (string * ConfigSpec)) (sidecar_name : option string) :
  _validate_config_reference config_name app_name cfgs (_get_external_configs cfgs)
    sidecar_name
  = match get config_name cfgs with
    | Some _ => Ok tt
    | None => Raise (ValueError (missing_config_msg sidecar_name app_name config_name))
    end.
Proof.
  unfold _validate_config_reference.
  destruct (get config_name cfgs) as [c|] eqn:G; [|reflexivity].
  destruct (match cfg_external c with Some b => b | None => false end) eqn:E;
    [|reflexivity].
  now rewrite (@external_config_listed cfgs config_name c G E).
Qed.

Lemma validate_external_resources_first (compose_data : ComposeModel)
    (external_configs external_secrets : list string) :
  _validate_external_resources compose_data external_configs external_secrets
  = outcome (first_violation
               (violation (configs compose_data) external_configs external_secrets)
               (references compose_data)).
Proof.
  unfold _validate_external_resources, references.
  apply for_each_first. intros [app_name app_config]. unfold check_app.
  cbn [fst snd]. rewrite first_violation_app, check_spec_first.
  destruct (first_violation _ (spec_references app_name None (app app_config)));
    [reflexivity|]. cbn [outcome bind].
  apply for_each_first. intros [sn sc]. apply check_spec_first.
Qed.

Lemma validation_passes (compose_data : ComposeModel)
    (external_configs external_secrets : list string) :
  _validate_external_resources compose_data external_configs external_secrets = Ok tt
  <-> forall r, In r (references compose_data) ->
                violation (configs compose_data) external_configs external_secrets r = None.
Proof.
  rewrite validate_external_resources_first.
  pose proof (first_violation_some
                (violation (configs compose_data) external_configs external_secrets)
                (references compose_data)) as S.
  destruct (first_violation _ (references compose_data)) as [msg|] eqn:F; cbn [outcome].
  - split; [discriminate|]. intros A.
    assert (N : Some msg <> @None string) by discriminate.
    apply S in N. destruct N as [r [I V]]. now apply A in I.
  - split; [|reflexivity]. intros _ r I.
    destruct (violation (configs compose_data) external_configs external_secrets r)
      as [m|] eqn:V; [|reflexivity].
    exfalso. assert (N : @None string <> None); [|now apply N].
    apply S. exists r. split; [exact I | congruence].
Qed.


Lemma mem_incl (x : string) (s s' : list string) :
  incl s s' -> mem x s = true -> mem x s' = true.
Proof. intros I M. apply mem_In. apply I. now apply mem_In. Qed.

(** X25: validation reads the external sets by membership only, and
    more names never hurt: a model that passes against some sets of
    external configs and secrets passes against any larger ones. *)
Theorem X25_validation_is_monotone (compose_data : ComposeModel)
    (external_configs external_secrets external_configs' external_secrets' : list string) :
  incl external_configs external_configs' ->
  incl external_secrets external_secrets' ->
  _validate_external_resources compose_data external_configs external_secrets = Ok tt ->
  _validate_external_resources compose_data external_configs' external_secrets' = Ok tt.
Proof.
  intros IC IS. rewrite !validation_passes. intros A r I. specialize (A r I).
  unfold violation, fault in *. destruct (named (ref_name r)); [|reflexivity].
  destruct (ref_kind r).
  - destruct (get (ref_name r) (configs compose_data)) as [c|]; [|exact A].
    destruct (match cfg_external c with Some b => b | None => false end);
      [|reflexivity]. cbn [andb] in *.
    destruct (mem (ref_name r) external_configs) eqn:M; [|discriminate].
    now rewrite (@mem_incl _ _ _ IC M).
  - destruct (mem (ref_name r) external_secrets) eqn:M;
      [|destruct (ref_sidecar r); discriminate].
    now rewrite (@mem_incl _ _ _ IS M).
Qed.



End Parse_properties.

Lemma X22_witness :
  exists c k n,
    Some holds_shared = Some c
    /\ In n (match k with ExtConfigMap => ["shared"] | ExtSecret => ["token"] end)
    /\ ((exists reason, c k n "default" = Failure 404 reason
                        /\ ValueError "Secret 'token' not found in namespace 'default'"
                           = ValueError
                               (KubernetesResourceValidator.not_found_msg k n "default"))
        \/ (exists status reason,
              c k n "default" = Failure status reason
              /\ status <> 404%Z
              /\ ValueError "Secret 'token' not found in namespace 'default'"
                 = ApiException status reason)).
Proof.
  apply (@X22_cluster_validation_failures (Some holds_shared) "default"
           ["shared"] ["token"]
           (ValueError "Secret 'token' not found in namespace 'default'")).
  reflexivity.
Defined.

Lemma X25_witness :
  ComposeValidator._validate_external_resources referring_model
    ["shared"; "settings"; "other"] ["token"; "key"] = Ok tt.
Proof.
  apply (@X25_validation_is_monotone referring_model
           ["shared"; "settings"] ["token"] ["shared"; "settings"; "other"]
           ["token"; "key"]).
  - intros x I. simpl in *. tauto.
  - intros x I. simpl in *. tauto.
  - reflexivity.
Defined.

(** ** Secret and ConfigMap data *)

Section Data_properties.
Context `{Text}.
Import ResourceData.

Lemma set_item_encoded (encode : string -> string) (key value : string)
    (data : list (string * string)) :
  set_item key (encode value) (encoded encode data)
  = encoded encode (set_item key value data).
Proof.
  induction data as [|[k v] data IH]; [reflexivity|].
  cbn [encoded map set_item fst snd]. destruct (String.eqb key k); [reflexivity|].
  cbn [map fst snd]. f_equal. exact IH.
Qed.

Lemma assign_encoded (encode : string -> string) (data : list (string * string))
    (item : string) :
  assign encode (encoded encode data) item
  = encoded_result encode (assign (fun value => value) data item).
Proof.
  unfold assign. destruct (split_first "=" item) as [[key value]|]; [|reflexivity].
  cbn [encoded_result]. f_equal. apply set_item_encoded.
Qed.

Lemma load_literals_encoded (encode : string -> string) (items : list string)
    (data : list (string * string)) :
  load_literals encode items (encoded encode data)
  = encoded_result encode (load_literals (fun value => value) items data).
Proof.
  revert data. induction items as [|item items IH]; intros data; [reflexivity|].
  cbn [load_literals]. rewrite assign_encoded.
  destruct (assign (fun value => value) data item) as [data'|e]; cbn [encoded_result bind];
    [apply IH | reflexivity].
Qed.

Lemma load_literals_app (encode : string -> string) (a b : list string)
    (data : list (string * string)) :
  load_literals encode (a ++ b) data
  = (data' <- load_literals encode a data ;; load_literals encode b data').
Proof.
  revert data. induction a as [|item a IH]; intros data; [reflexivity|].
  rewrite <- app_comm_cons. cbn [load_literals].
  destruct (assign encode data item) as [data'|e]; cbn [bind]; [apply IH | reflexivity].
Qed.

Lemma load_lines_literals (encode : string -> string) (lines : list string)
    (data : list (string * string)) :
  load_lines encode lines data = load_literals encode (effective_lines lines) data.
Proof.
  revert data. unfold effective_lines.
  induction lines as [|line lines IH]; intros data; [reflexivity|].
  cbn [load_lines map filter].
  destruct (negb (String.eqb (strip line) "") && negb (startswith "#" (strip line))).
  - cbn [load_literals]. destruct (assign encode data (strip line)); cbn [bind];
      [apply IH | reflexivity].
  - apply IH.
Qed.

(** The assignments [create_data] makes, in order: those of the env
    file, then the literals. *)
Lemma create_data_literals (encode : string -> string)
    (from_env_file : option (list string)) (from_literal : list string) :
  create_data encode from_env_file from_literal
  = load_literals encode
      (match from_env_file with
       | Some lines => effective_lines lines
       | None => []
       end ++ from_literal) [].
Proof.
  unfold create_data. rewrite load_literals_app.
  destruct from_env_file as [lines|]; [|reflexivity].
  now rewrite load_lines_literals.
Qed.

(** X27: the data of a Secret is the data of the ConfigMap built from
    the same file and literals with every value base64-encoded: the same
    keys in the same order, and the same failure when there is one. *)
Theorem X27_secret_data_is_encoded_config_data (from_env_file : option (list string))
    (from_literal : list string) :
  create_secret_data from_env_file from_literal
  = match create_config_data from_env_file from_literal with
    | Ok data => Ok (encoded b64encode data)
    | Raise e => Raise e
    end.
Proof.
  unfold create_secret_data, create_config_data. rewrite !create_data_literals.
  apply (load_literals_encoded b64encode _ []).
Qed.

(** X28: an env file counts as the literals its lines give once
    stripped, blank lines and lines starting with [#] left out, placed
    before the literals of [from_literal]. *)
Theorem X28_env_file_lines_are_literals (encode : string -> string)
    (lines : list string) (from_literal : list string) :
  create_data encode (Some lines) from_literal
  = create_data encode None (effective_lines lines ++ from_literal).
Proof. rewrite !create_data_literals. reflexivity. Qed.

Lemma split_first_contains (sep : ascii) (s : string) :
  split_first sep s = None <-> contains sep s = false.
Proof.
  induction s as [|c s IH]; cbn; [tauto|].
  destruct (Ascii.eqb c sep); cbn; [split; discriminate|].
  destruct (split_first sep s) as [[a b]|].
  - split; [discriminate|]. intros C. apply IH in C. discriminate.
  - split; [|reflexivity]. intros _. now apply IH.
Qed.

Lemma load_literals_returns (encode : string -> string) (items : list string)
    (data : list (string * string)) :
  (exists data', load_literals encode items data = Ok data')
  <-> forall item, In item items -> contains "=" item = true.
Proof.
  revert data. induction items as [|item items IH]; intros data; cbn [load_literals].
  - split; [intros _ item [] | intros _; now eexists].
  - unfold assign. destruct (split_first "=" item) as [[key value]|] eqn:S; cbn [bind].
    + rewrite IH. split.
      * intros A i [<-|I]; [|now apply A].
        destruct (contains "=" item) eqn:C; [reflexivity|].
        apply split_first_contains in C. congruence.
      * intros A i I. apply A. now right.
    + split; [intros [d R]; discriminate|]. intros A.
      apply split_first_contains in S. rewrite (A item) in S by now left. discriminate.
Qed.

(** X29: building the data returns exactly when every literal and every
    effective line of the env file has an [=]; one entry without it
    makes the whole call raise. *)
Theorem X29_data_needs_assignments (encode : string -> string)
    (from_env_file : option (list string)) (from_literal : list string) :
  (exists data, create_data encode from_env_file from_literal = Ok data)
  <-> forall item,
        In item (match from_env_file with
                 | Some lines => effective_lines lines
                 | None => []
                 end ++ from_literal) ->
        contains "=" item = true.
Proof. rewrite create_data_literals. apply load_literals_returns. Qed.

Lemma get_set_item_same {V : Type} (key : string) (value : V) (data : list (string * V)) :
  get key (set_item key value data) = Some value.
Proof.
  induction data as [|[k v] data IH]; cbn.
  - now rewrite String.eqb_refl.
  - destruct (String.eqb key k) eqn:E; cbn; rewrite E; [reflexivity | exact IH].
Qed.

Lemma get_set_item_other {V : Type} (key key' : string) (value : V)
    (data : list (string * V)) :
  key' <> key -> get key' (set_item key value data) = get key' data.
Proof.
  intros N. induction data as [|[k v] data IH]; cbn.
  - destruct (String.eqb_spec key' key); [contradiction | reflexivity].
  - destruct (String.eqb_spec key k) as [->|_]; cbn.
    + destruct (String.eqb_spec key' k); [contradiction | reflexivity].
    + destruct (String.eqb key' k); [reflexivity | exact IH].
Qed.

(** X30: a literal added at the end wins: if the data builds without
    it, it builds with it, the stripped key is then bound to the encoded
    stripped value, whatever the env file or an earlier literal gave it,
    and every other key keeps its value. *)
Theorem X30_last_literal_wins (encode : string -> string)
    (from_env_file : option (list string)) (from_literal : list string)
    (item key value : string) (data : list (string * string)) :
  create_data encode from_env_file from_literal = Ok data ->
  split_first "=" item = Some (key, value) ->
  exists data',
    create_data encode from_env_file (from_literal ++ [item]) = Ok data'
    /\ get (strip key) data' = Some (encode (strip value))
    /\ forall key', key' <> strip key -> get key' data' = get key' data.
Proof.
  rewrite !create_data_literals. rewrite app_assoc, (load_literals_app encode _ [item]).
  intros -> S. cbn [bind load_literals]. unfold assign. rewrite S. cbn [bind].
  eexists. split; [reflexivity|]. split.
  - apply get_set_item_same.
  - intros key' N. now apply get_set_item_other.
Qed.

End Data_properties.

Lemma X30_witness :
  exists data',
    ResourceData.create_data (fun value => value) (Some ["# settings"; "MODE = dev"; ""])
      (["PORT=80"] ++ ["MODE=prod"]) = Ok data'
    /\ get (strip "MODE") data' = Some (strip "prod")
    /\ forall key', key' <> strip "MODE" ->
                    get key' data' = get key' [("MODE", "dev"); ("PORT", "80")].
Proof.
  apply (@X30_last_literal_wins ascii_text (fun value => value)
           (Some ["# settings"; "MODE = dev"; ""]) ["PORT=80"] "MODE=prod" "MODE" "prod"
           [("MODE", "dev"); ("PORT", "80")]).
  - reflexivity.
  - reflexivity.
Defined.
